(** * BioSimSpace: the AMBER process record store and the atom-mapping scorer

    A shallow embedding of
      - [BioSimSpace/Process/amber.py]: the energy-info parser
        ([Amber._update_energy_dict]), the record queries
        ([Amber._get_stdout_record], [Amber.getRecord], [Amber.getStep]),
        the file-watch handler ([Handler.on_any_event], [Amber.start]),
        frame access ([Amber.getFrames], [Amber.nFrames]) and the
        executable lookup of [Amber.__init__];
      - [BioSimSpace/Align/__init__.py]: [matchAtoms] and [_score_rmsd].

    Python values that the code handles as text stay text here: log lines,
    record keys and stored record values are [string]s over 8-bit
    characters (the logs written by the engine are ASCII). *)

From Stdlib Require Import ZArith QArith String Ascii List Bool Lia.
From Stdlib Require Import Sorting.Sorted Sorting.Permutation.
From stdpp Require Import base gmap strings list.
Import ListNotations.

Close Scope Q_scope.
Open Scope string_scope.
Open Scope Z_scope.

(** ** The Python builtins the two modules rely on *)

Module Py.

(** Exceptions that the modelled code can raise. *)
Inductive exn : Type :=
| ValueError (msg : string)
| TypeError (msg : string)
| IndexError
| KeyError
| NameError (name : string)
| UnboundLocalError (name : string)
| IOError (msg : string).

(** A call either returns a value or propagates an exception. *)
Inductive result (A : Type) : Type :=
| Return (a : A)
| Raise (e : exn).
Arguments Return {A} a.
Arguments Raise {A} e.

(** Sequencing: the first exception raised ends the computation. *)
#[export] Instance result_bind : MBind result := fun A B k r =>
  match r with
  | Return a => k a
  | Raise e => Raise e
  end.

#[export] Instance result_ret : MRet result := fun A a => Return a.

(** A list comprehension [[f(x) for x in l]]. *)
Fixpoint comprehension {A B : Type} (f : A -> result B) (l : list A) : result (list B) :=
  match l with
  | [] => Return []
  | x :: l' => y ← f x; ys ← comprehension f l'; Return (y :: ys)
  end.

(** *** Characters *)

Definition code (c : ascii) : N := N_of_ascii c.

Definition in_range (lo hi : N) (c : ascii) : bool :=
  ((lo <=? code c) && (code c <=? hi))%N.

(** [str.isspace] on one character, also the class [\s] of [re]:
    TAB, LF, VT, FF, CR, the four separators 0x1c-0x1f and the space. *)
Definition isspace (c : ascii) : bool :=
  in_range 9 13 c || in_range 28 31 c || (code c =? 32)%N.

(** The class [\d] on ASCII text. *)
Definition isdigit (c : ascii) : bool := in_range 48 57 c.

(** The class [[A-Z]]. *)
Definition is_AZ (c : ascii) : bool := in_range 65 90 c.

Definition is_az (c : ascii) : bool := in_range 97 122 c.

Definition is_char (d : ascii) (c : ascii) : bool := (code c =? code d)%N.

Definition upper_char (c : ascii) : ascii :=
  if is_az c then ascii_of_N (code c - 32) else c.

(** *** Strings *)

(** [s.upper()] *)
Fixpoint upper (s : string) : string :=
  match s with
  | EmptyString => EmptyString
  | String c s' => String (upper_char c) (upper s')
  end.

(** [s.lstrip()] *)
Fixpoint lstrip (s : string) : string :=
  match s with
  | EmptyString => EmptyString
  | String c s' => if isspace c then lstrip s' else s
  end.

(** [s.strip()] *)
Definition strip (s : string) : string :=
  String.rev (lstrip (String.rev (lstrip s))).

(** [c in s] for a one-character [c] *)
Fixpoint contains (d : ascii) (s : string) : bool :=
  match s with
  | EmptyString => false
  | String c s' => is_char d c || contains d s'
  end.

(** [s.replace(c, "")] for a one-character [c] *)
Fixpoint remove_char (d : ascii) (s : string) : string :=
  match s with
  | EmptyString => EmptyString
  | String c s' => if is_char d c then remove_char d s' else String c (remove_char d s')
  end.

(** [s.split()]: the maximal runs of non-space characters, in order.
    [cur] is the run being read, most recent character first. *)
Fixpoint split_go (cur : option string) (s : string) : list string :=
  match s with
  | EmptyString =>
      match cur with
      | Some w => [String.rev w]
      | None => []
      end
  | String c s' =>
      if isspace c then
        match cur with
        | Some w => String.rev w :: split_go None s'
        | None => split_go None s'
        end
      else
        match cur with
        | Some w => split_go (Some (String c w)) s'
        | None => split_go (Some (String c EmptyString)) s'
        end
  end.

Definition split (s : string) : list string := split_go None s.

(** Iterating over a text file opened with [open(path, "r")]: the lines in
    order, each one keeping its terminating newline; universal-newline mode
    turns CR LF and a lone CR into LF. *)
Fixpoint lines_go (cur : string) (s : string) : list string :=
  match s with
  | EmptyString =>
      match cur with
      | EmptyString => []
      | _ => [String.rev cur]
      end
  | String c s' =>
      if (code c =? 10)%N then String.rev (String c cur) :: lines_go EmptyString s'
      else if (code c =? 13)%N then
        match s' with
        | String c' s'' =>
            if (code c' =? 10)%N then lines_go cur s'
            else String.rev (String "010"%char cur) :: lines_go EmptyString s'
        | EmptyString => [String.rev (String "010"%char cur)]
        end
      else lines_go (String c cur) s'
  end.

Definition lines (content : string) : list string := lines_go EmptyString content.

Definition newline : string := String "010"%char EmptyString.

(** *** Object identity of strings

    [a is b] compares object identity.  A string written as a literal in the
    module's code is one shared (interned) constant; a string computed at run
    time, such as the result of [.upper()], is a new object.  One-character
    and empty strings are shared by the interpreter whatever their origin. *)
Inductive origin : Type := Literal | Computed.

Record str : Type := { org : origin; text : string }.

Definition lit (s : string) : str := {| org := Literal; text := s |}.
Definition computed (s : string) : str := {| org := Computed; text := s |}.

Definition py_is (a b : str) : bool :=
  if (String.length (text a) <=? 1)%nat then String.eqb (text a) (text b)
  else
    match org a, org b with
    | Literal, Literal => String.eqb (text a) (text b)
    | _, _ => false
    end.

(** [a == b] compares contents. *)
Definition py_eq (a b : str) : bool := String.eqb (text a) (text b).

(** *** The regular expressions of [re], as far as the parser uses them

    A pattern is a sequence of quantified character classes, each one inside
    capture group [grp] (0 for none).  Matching is greedy with backtracking,
    as in [re]. *)
Inductive quantifier : Type :=
| Once          (* x  *)
| Optional      (* x? *)
| ZeroOrMore    (* x* *)
| OneOrMore.    (* x+ *)

Record item : Type := { cls : ascii -> bool; quant : quantifier; grp : nat }.

Section Matcher.
Context {R : Type}.

(** [x*] at the head of [s]: take as many as possible, give back one at a
    time while the continuation [k] fails. *)
Fixpoint star (p : ascii -> bool) (s : string)
    (k : string -> string -> option R) : option R :=
  match s with
  | String c s' =>
      if p c then
        match star p s' (fun took rest => k (String c took) rest) with
        | Some r => Some r
        | None => k EmptyString s
        end
      else k EmptyString s
  | EmptyString => k EmptyString s
  end.

Definition run_item (it : item) (s : string)
    (k : string -> string -> option R) : option R :=
  match quant it, s with
  | Once, String c s' =>
      if cls it c then k (String c EmptyString) s' else None
  | Once, EmptyString => None
  | Optional, String c s' =>
      if cls it c then
        match k (String c EmptyString) s' with
        | Some r => Some r
        | None => k EmptyString s
        end
      else k EmptyString s
  | Optional, EmptyString => k EmptyString s
  | ZeroOrMore, _ => star (cls it) s k
  | OneOrMore, String c s' =>
      if cls it c then star (cls it) s' (fun took rest => k (String c took) rest)
      else None
  | OneOrMore, EmptyString => None
  end.

End Matcher.

(** A match of the whole pattern at the head of [s]: the text taken by each
    item and what is left of [s]. *)
Fixpoint match_items (p : list item) (s : string) : option (list string * string) :=
  match p with
  | [] => Some ([], s)
  | it :: p' =>
      run_item it s (fun took rest =>
        match match_items p' rest with
        | Some (ts, r) => Some (took :: ts, r)
        | None => None
        end)
  end.

(** The text captured by group [g]. *)
Fixpoint group_text (g : nat) (p : list item) (ts : list string) : string :=
  match p, ts with
  | it :: p', t :: ts' =>
      if Nat.eqb (grp it) g then t +:+ group_text g p' ts' else group_text g p' ts'
  | _, _ => EmptyString
  end.

(** [re.findall] for a pattern with two groups: scan left to right, at each
    position take the match if there is one and go on after it (one character
    further after an empty match).  [skip] counts the characters of the last
    match still to be passed over. *)
Fixpoint findall_go (p : list item) (skip : nat) (s : string) : list (string * string) :=
  match skip with
  | S n =>
      match s with
      | String _ s' => findall_go p n s'
      | EmptyString => []
      end
  | O =>
      match match_items p s with
      | Some (ts, rest) =>
          let found := (group_text 1 p ts, group_text 2 p ts) in
          let len := (String.length s - String.length rest)%nat in
          match s with
          | String _ s' => found :: findall_go p (len - 1) s'
          | EmptyString => [found]
          end
      | None =>
          match s with
          | String _ s' => findall_go p O s'
          | EmptyString => []
          end
      end
  end.

Definition findall (p : list item) (s : string) : list (string * string) :=
  findall_go p O s.

(** *** Numbers from text *)

Definition digit_value (c : ascii) : Z := Z.of_N (code c) - 48.

(** A run of digits, single underscores allowed between two digits: its
    value, the number of digits read and the rest of the text. *)
Fixpoint digits_go (acc : Z) (n : nat) (s : string) : Z * nat * string :=
  match s with
  | String c s' =>
      if isdigit c then digits_go (10 * acc + digit_value c) (S n) s'
      else if is_char "_" c then
        match s' with
        | String c' _ => if isdigit c' then digits_go acc n s' else (acc, n, s)
        | EmptyString => (acc, n, s)
        end
      else (acc, n, s)
  | EmptyString => (acc, n, s)
  end.

Definition digitpart (s : string) : option (Z * nat * string) :=
  match s with
  | String c _ => if isdigit c then Some (digits_go 0 0 s) else None
  | EmptyString => None
  end.

(** An optional sign: [true] for a minus. *)
Definition sign (s : string) : bool * string :=
  match s with
  | String c s' =>
      if is_char "-" c then (true, s')
      else if is_char "+" c then (false, s')
      else (false, s)
  | EmptyString => (false, s)
  end.

Definition signed (neg : bool) (z : Z) : Z := if neg then - z else z.

(** [int(s)] for a string [s]: surrounding white space, a sign, decimal
    digits; [ValueError] for anything else. *)
Definition int_of_str (s : string) : result Z :=
  let (neg, t) := sign (strip s) in
  match digitpart t with
  | Some (v, _, EmptyString) => Return (signed neg v)
  | _ => Raise (ValueError "invalid literal for int()")
  end.

(** A [float]: the number a decimal literal denotes (the rounding to a
    binary64 value is left out), an infinity or a NaN. *)
Inductive float : Type :=
| Finite (q : Q)
| Infinity (negative : bool)
| NaN.

(** The exponent part [e[+-]digits], 0 when there is none. *)
Definition exponent (s : string) : option (Z * string) :=
  match s with
  | String c s' =>
      if is_char "E" (upper_char c) then
        let (neg, t) := sign s' in
        match digitpart t with
        | Some (v, _, rest) => Some (signed neg v, rest)
        | None => None
        end
      else Some (0, s)
  | EmptyString => Some (0, s)
  end.

Definition decimal (neg : bool) (mant : Z) (frac_digits : nat) (exp : Z) : float :=
  Finite (Qred (inject_Z (signed neg mant) * Qpower (10 # 1) (exp - Z.of_nat frac_digits))).

(** What follows the integer part [ip] of a number: an optional point with
    its fraction, an optional exponent, and nothing more. *)
Definition after_int (neg : bool) (ip : option Z) (s : string) : option float :=
  match s with
  | String c s' =>
      if is_char "." c then
        match digitpart s', ip with
        | Some (f, n, rest), _ =>
            match exponent rest with
            | Some (e, EmptyString) =>
                Some (decimal neg (default 0 ip * 10 ^ Z.of_nat n + f) n e)
            | _ => None
            end
        | None, Some i =>
            match exponent s' with
            | Some (e, EmptyString) => Some (decimal neg i 0 e)
            | _ => None
            end
        | None, None => None
        end
      else
        match ip, exponent s with
        | Some i, Some (e, EmptyString) => Some (decimal neg i 0 e)
        | _, _ => None
        end
  | EmptyString =>
      match ip with
      | Some i => Some (decimal neg i 0 0)
      | None => None
      end
  end.

(** [float(s)] for a string [s]. *)
Definition float_of_str (s : string) : result float :=
  let (neg, t) := sign (strip s) in
  let u := upper t in
  if String.eqb u "INF" || String.eqb u "INFINITY" then Return (Infinity neg)
  else if String.eqb u "NAN" then Return NaN
  else
    let parsed :=
      match digitpart t with
      | Some (i, _, rest) => after_int neg (Some i) rest
      | None => after_int neg None t
      end in
    match parsed with
    | Some f => Return f
    | None => Raise (ValueError "could not convert string to float")
    end.

End Py.

(** ** [BioSimSpace/Process/amber.py] *)

Module Amber.
Import Py.

(** Modelled from the spec: the record store class [process.MultiDict]
    (its module, [BioSimSpace/Process/process.py], is not among the sources).
    The spec's data model has "a mapping from record-key (string, e.g. NSTEP,
    ETOT) to an ordered sequence of parsed values (append-only)", "stored in
    insertion-ordered per-key sequences": an assignment [d[key] = value]
    appends [value] to the sequence of [key], which it creates when the key is
    new; reading a key that was never assigned raises [KeyError], as for any
    dictionary. *)
Abbreviation MultiDict := (gmap string (list string)).

(** [d[key] = value] *)
Definition setitem (key value : string) (d : MultiDict) : MultiDict :=
  <[key := (default [] (d !! key) ++ [value])%list]> d.

(** [d[key]] *)
Definition getitem (d : MultiDict) (key : string) : result (list string) :=
  match d !! key with
  | Some l => Return l
  | None => Raise KeyError
  end.

(** [l[-1]] *)
Definition last_item {A : Type} (l : list A) : result A :=
  match last l with
  | Some x => Return x
  | None => Raise IndexError
  end.

(** [Protocol.protocol.ProtocolType], as the process uses it. *)
Inductive ProtocolType : Type := MINIMISATION | EQUILIBRATION | PRODUCTION.

Definition is_minimisation (p : ProtocolType) : bool :=
  match p with
  | MINIMISATION => true
  | _ => false
  end.

(** *** [Amber._update_energy_dict] *)

Definition class (p : ascii -> bool) (q : quantifier) (g : nat) : item :=
  {| cls := p; quant := q; grp := g |}.

(** The pattern given to [findall].  Group 1, the key: any digits, any
    dashes, any digits, any white space, one or more capital letters, any
    opening parentheses, any capital letters, any closing parentheses.  Then
    any white space, an equals sign, any white space.  Group 2, the value:
    any dashes, one or more digits, an optional point, any digits. *)
Definition record_pattern : list item :=
  [ class isdigit ZeroOrMore 1; class (is_char "-") ZeroOrMore 1;
    class isdigit ZeroOrMore 1; class isspace ZeroOrMore 1;
    class is_AZ OneOrMore 1; class (is_char "(") ZeroOrMore 1;
    class is_AZ ZeroOrMore 1; class (is_char ")") ZeroOrMore 1;
    class isspace ZeroOrMore 0; class (is_char "=") Once 0;
    class isspace ZeroOrMore 0;
    class (is_char "-") ZeroOrMore 2; class isdigit OneOrMore 2;
    class (is_char ".") Optional 2; class isdigit ZeroOrMore 2 ].

(** Where control is after a piece of the loop body: at the next iteration,
    out of the function by its [return], or in an exception.  The store is
    the dictionary as mutated so far. *)
Inductive step : Type :=
| Next (is_header : bool) (d : MultiDict)
| Stop (d : MultiDict)
| Fail (e : exn) (d : MultiDict).

(** The test [value == self._stdout_dict['NSTEP'][-1]] behind
    ['NSTEP' in self._stdout_dict and ...]. *)
Definition same_step (d : MultiDict) (value : result string) : result bool :=
  match d !! "NSTEP" with
  | Some l => v ← value; x ← last_item l; Return (String.eqb v x)
  | None => Return false
  end.

(** The loop [for key, value in records], with [is_header] carried along. *)
Fixpoint for_records (is_header : bool) (records : list (string * string))
    (d : MultiDict) : step :=
  match records with
  | [] => Next is_header d
  | (key, value) :: rest =>
      let key := strip key in
      if String.eqb key "NSTEP" then
        match same_step d (Return value) with
        | Return true => Stop d
        | Return false => for_records is_header rest (setitem key value d)
        | Raise e => Fail e d
        end
      else for_records is_header rest (setitem key value d)
  end.

(** [data[i]] on the list of words of a line *)
Definition word (data : list string) (i : nat) : result string :=
  match data !! i with
  | Some w => Return w
  | None => Raise IndexError
  end.

(** The first test of the minimisation branch: a line without an equals sign
    whose first word is NSTEP is a header. *)
Definition names_columns (line : string) : bool :=
  negb (contains "=" line) &&
  match split (upper line) with
  | w :: _ => String.eqb w "NSTEP"
  | [] => false
  end.

(** The body of the loop over the lines of the file. *)
Definition process_line (protocol : ProtocolType) (is_header : bool)
    (d : MultiDict) (line : string) : step :=
  let records h d := for_records h (findall record_pattern (upper line)) d in
  match line with
  | String c _ =>
      if (0 <? String.length line)%nat
         && negb (py_is (computed (String c EmptyString)) (lit "|")) then
        if is_minimisation protocol then
          if names_columns line then Next true d
          else if is_header then
            let data := split (upper line) in
            match same_step d (word data 0) with
            | Return true => Stop d
            | Return false =>
                match word data 0 with
                | Return nstep =>
                    let d := setitem "NSTEP" nstep d in
                    match word data 1 with
                    | Return energy => records false (setitem "ENERGY" energy d)
                    | Raise e => Fail e d
                    end
                | Raise e => Fail e d
                end
            | Raise e => Fail e d
            end
          else records is_header d
        else records is_header d
      else Next is_header d
  | EmptyString => Next is_header d
  end.

(** The loop [for line in f]. *)
Fixpoint for_lines (protocol : ProtocolType) (is_header : bool)
    (d : MultiDict) (ls : list string) : step :=
  match ls with
  | [] => Next is_header d
  | line :: ls' =>
      match process_line protocol is_header d line with
      | Next h d' => for_lines protocol h d' ls'
      | s => s
      end
  end.

(** How a call ended: the loop ran out of lines, the function returned from
    inside the loop, or an exception left it.  The first two are the same to
    the caller. *)
Inductive ending : Type :=
| EndOfFile
| EarlyReturn
| Exception (e : exn).

(** [self._update_energy_dict()]: [nrg] is the text of the energy info file
    at the time of the call, [d] the dictionary before it; the result is the
    dictionary after the call and how the call ended. *)
Definition _update_energy_dict (protocol : ProtocolType) (nrg : string)
    (d : MultiDict) : MultiDict * ending :=
  match for_lines protocol false d (lines nrg) with
  | Next _ d' => (d', EndOfFile)
  | Stop d' => (d', EarlyReturn)
  | Fail e d' => (d', Exception e)
  end.

(** *** [Amber._get_stdout_record] and the getters *)

(** What a getter returns. *)
Inductive value : Type :=
| VNone
| VInt (z : Z)
| VFloat (f : float)
| VInts (l : list Z)
| VFloats (l : list float).

(** The [time_series] argument: a [bool], or an object of another type. *)
Inductive flag : Type :=
| Flag (b : bool)
| NotBool.

(** [try: ... except KeyError: return None] *)
Definition except_KeyError (r : result value) : result value :=
  match r with
  | Raise KeyError => Return VNone
  | _ => r
  end.

Definition _get_stdout_record (d : MultiDict) (key : str) (time_series : flag)
    : result value :=
  if (size d =? 0)%nat then Return VNone
  else
    let time_series :=
      match time_series with
      | Flag b => b
      | NotBool => false
      end in
    if time_series then
      except_KeyError
        (if py_is key (lit "NSTEP") then
           l ← getitem d (text key); xs ← comprehension int_of_str l; Return (VInts xs)
         else
           l ← getitem d (text key); xs ← comprehension float_of_str l; Return (VFloats xs))
    else
      except_KeyError
        (if py_is key (lit "NSTEP") then
           l ← getitem d (text key); x ← last_item l; z ← int_of_str x; Return (VInt z)
         else
           l ← getitem d (text key); x ← last_item l; f ← float_of_str x; Return (VFloat f)).

(** The part of an [Amber] object that the parser, the getters and the
    watcher touch. [process] is [None] before the first start and otherwise
    tells whether the child process is running. *)
Record amber : Type := {
  protocol : ProtocolType;
  stdout_dict : MultiDict;
  is_watching : bool;
  process : option bool
}.

Definition with_dict (d : MultiDict) (a : amber) : amber :=
  {| protocol := protocol a; stdout_dict := d;
     is_watching := is_watching a; process := process a |}.

Definition with_watching (w : bool) (a : amber) : amber :=
  {| protocol := protocol a; stdout_dict := stdout_dict a;
     is_watching := w; process := process a |}.

Definition with_process (p : option bool) (a : amber) : amber :=
  {| protocol := protocol a; stdout_dict := stdout_dict a;
     is_watching := is_watching a; process := p |}.

(** The method call [self._update_energy_dict()] on the object. *)
Definition update (nrg : string) (a : amber) : amber * ending :=
  let (d, e) := _update_energy_dict (protocol a) nrg (stdout_dict a) in
  (with_dict d a, e).

(** What the caller of [_update_energy_dict] sees: [None], or the
    exception. *)
Definition outcome (e : ending) : result unit :=
  match e with
  | Exception x => Raise x
  | _ => Return ()
  end.

(** A getter: update, then query; an exception of the update propagates. *)
Definition getter (key : str) (nrg : string) (time_series : flag) (a : amber)
    : amber * result value :=
  let (a', e) := update nrg a in
  (a', _ ← outcome e; _get_stdout_record (stdout_dict a') key time_series).

(** [self.getRecord(record, time_series)]: the key is
    [record.strip().upper()], a string made at run time. *)
Definition getRecord (record : string) :=
  getter (computed (upper (strip record))).

(** [self.getStep(time_series)]: the key is the literal ['NSTEP']. *)
Definition getStep := getter (lit "NSTEP").

(** [self.getTotalEnergy(time_series)] *)
Definition getTotalEnergy (nrg : string) (time_series : flag) (a : amber) :=
  if is_minimisation (protocol a)
  then getter (lit "ENERGY") nrg time_series a
  else getter (lit "ETOT") nrg time_series a.

(** *** The watcher: [Handler.on_any_event] and [Amber.start] *)

(** [Handler.on_any_event(event)]: [event_type] is [event.event_type], [nrg]
    the energy info file as it is when the handler runs. *)
Definition on_any_event (event_type : string) (nrg : string) (a : amber)
    : amber * result unit :=
  if String.eqb event_type "modified" then
    let a :=
      if negb (is_watching a)
      then with_watching true (with_dict ∅ a)
      else a in
    let (a', e) := update nrg a in
    (a', outcome e)
  else (a, Return ()).

(** [Amber.start()], up to the launch of the child process and of the
    watcher. *)
Definition start (a : amber) : amber :=
  match process a with
  | Some true => a
  | _ => with_process (Some true) (with_watching false a)
  end.

(** An object as the constructor leaves it. *)
Definition fresh (p : ProtocolType) : amber :=
  {| protocol := p; stdout_dict := ∅; is_watching := false; process := None |}.

(** Every series of [d] is the beginning of the series of the same key in
    [d']: the store has only been appended to. *)
Definition extends (d d' : MultiDict) : Prop :=
  forall k l, d !! k = Some l -> exists l', d' !! k = Some (l ++ l')%list.

Definition store_of (s : step) : MultiDict :=
  match s with
  | Next _ d | Stop d | Fail _ d => d
  end.

(** *** Frames: [Amber.getFrames] and [Amber.nFrames] *)

(** The names bound at the top level of [amber.py] (its imports and its
    three classes) and the local names of [getFrames]. *)
Definition module_names : list string :=
  [ "findExe"; "Process"; "AmberPrm"; "AmberRst7"; "MoleculeParser";
    "process"; "Protocol"; "ProtocolType"; "ceil"; "floor"; "chdir";
    "environ"; "getcwd"; "path"; "remove"; "findall"; "copyfile"; "sleep";
    "timer"; "warn"; "try_import"; "pygtail"; "watchdog";
    "PatternMatchingEventHandler"; "Observer"; "mdtraj"; "mdanalysis";
    "Watcher"; "Handler"; "Amber" ].

Definition getFrames_locals : list string :=
  [ "self"; "indices"; "traj"; "frames"; "max_frame"; "x"; "frame_file";
    "system" ].

(** Reading a name that is neither a local of [getFrames] nor a global of the
    module (none of the names read there is a builtin). *)
Definition load_name (n : string) : result unit :=
  if bool_decide (n ∈ getFrames_locals ++ module_names)%list then Return ()
  else Raise (NameError n).

(** An element of the [indices] list: an [int] or an object of another type. *)
Inductive element : Type :=
| Int (z : Z)
| Other.

(** The [indices] argument: [None], one [int], or a list. *)
Inductive indices_arg : Type :=
| NoIndices
| OneIndex (z : Z)
| IndexList (l : list element).

Definition ints (l : list element) : option (list Z) :=
  mapM (fun e => match e with Int z => Some z | Other => None end) l.

Section Frames.
Context {Frame : Type}.

(** [traj[x]] on a trajectory of frames, negative indices counting from the
    end. *)
Definition frame_at (traj : list Frame) (x : Z) : result Frame :=
  let i := if x <? 0 then Z.of_nat (length traj) + x else x in
  if i <? 0 then Raise IndexError
  else
    match traj !! Z.to_nat i with
    | Some f => Return f
    | None => Raise IndexError
    end.

(** The loop [for x in indices]; [frame_file] is the local variable of that
    name, [None] as long as nothing was assigned to it. *)
Fixpoint for_indices (work_dir : string) (traj : list Frame) (max_frame : Z)
    (indices : list Z) (frames : list Frame) (frame_file : option string)
    : result (list Frame * option string) :=
  match indices with
  | [] => Return (frames, frame_file)
  | x :: rest =>
      if Z.abs x >? max_frame then
        (* the message is the format string modulo the call [s (x, max_frame)] *)
        _ ← load_name "s";
        Raise (ValueError "Frame index of of range.")
      else
        let frame_file := Some (work_dir +:+ "/frame.nc") in
        system ← frame_at traj x;
        for_indices work_dir traj max_frame rest (frames ++ [system])%list frame_file
  end.

(** [self.getFrames(indices)]: [traj] is what [self.getTrajectory()] gives,
    [None] when there is no trajectory file; the result is [None] or the list
    of frames. *)
Definition getFrames (work_dir : string) (traj : option (list Frame))
    (indices : indices_arg) : result (option (list Frame)) :=
  match traj with
  | None => Return None
  | Some traj =>
      indices ←
        match indices with
        | NoIndices => Return (Z.of_nat <$> seq 0 (length traj))
        | OneIndex z => Return [z]
        | IndexList l =>
            match ints l with
            | Some zs => Return zs
            | None =>
                Raise (ValueError
                  "Unsupported index. Indices must be an 'int', or list of 'int' types.")
            end
        end;
      let max_frame := Z.of_nat (length traj) - 1 in
      '(frames, frame_file) ← for_indices work_dir traj max_frame indices [] None;
      match frame_file with
      | Some _ => Return (Some frames)
      | None => Raise (UnboundLocalError "frame_file")
      end
  end.

(** [self.nFrames()] *)
Definition nFrames (traj : option (list Frame)) : Z :=
  match traj with
  | None => 0
  | Some traj => Z.of_nat (length traj)
  end.

End Frames.

(** *** The executable: the first lines of [Amber.__init__] *)

Section Construction.
Context {Protocol : Type}.

(** What the attribute [_exe] holds: a path, or the protocol object. *)
Inductive exe_value : Type :=
| ExePath (p : string)
| ExeProtocol (p : Protocol).

Definition quote : string := String "034"%char EmptyString.

(** [environ] is the process environment, [isfile] is [os.path.isfile],
    [findExe] the lookup on the system path (it raises when nothing is
    found), [inherited] the attribute [_exe] as the base class constructor
    left it ([None] when it is not set).  The result is the attribute after
    the lines, or the exception they raise. *)
Definition init_exe (environ : gmap string string) (isfile : string -> bool)
    (findExe : string -> result string) (inherited : option exe_value)
    (exe : option string) (protocol : Protocol) : result (option exe_value) :=
  match exe with
  | None =>
      match environ !! "AMBERHOME" with
      | Some amber_home =>
          if isfile (amber_home +:+ "/bin/sander")
          then Return (Some (ExePath (amber_home +:+ "/bin/sander")))
          else Return inherited
      | None =>
          p ← findExe "sander";
          Return (Some (ExePath p))
      end
  | Some exe =>
      if isfile exe then Return (Some (ExeProtocol protocol))
      else Raise (IOError ("AMBER executable doesn't exist: " +:+ quote +:+ exe +:+ quote))
  end.

End Construction.

End Amber.

(** ** [BioSimSpace/Align/__init__.py] *)

Module Align.
Import Py.

(** [sorted(l, key=key)]: the keys are computed once for each element, then
    the elements are ordered by [<] on their keys; the sort is stable.  Each
    element is put in front of the first one whose key is not smaller than
    its own. *)
Section Sorted.
Context {A K : Type} (lt : K -> K -> bool).

Fixpoint insert (x : A * K) (l : list (A * K)) : list (A * K) :=
  match l with
  | [] => [x]
  | y :: l' => if lt (snd y) (snd x) then y :: insert x l' else x :: l
  end.

Fixpoint sort (l : list (A * K)) : list (A * K) :=
  match l with
  | [] => []
  | x :: l' => insert x (sort l')
  end.

Definition sorted (key : A -> K) (l : list A) : list A :=
  fst <$> sort ((fun x => (x, key x)) <$> l).

(** [x] may stand before [y] in the result: the key of [y] is not smaller,
    and when the two keys tie, [x] is before [y] in the order [R] of the
    input. *)
Definition in_order (R : A -> A -> Prop) (x y : A * K) : Prop :=
  lt (snd y) (snd x) = false /\ (lt (snd x) (snd y) = false -> R (fst x) (fst y)).

End Sorted.

Section Scoring.
(** The chemistry engine: molecules, atom indices, coordinates and scores are
    its own objects; [align mol0 mol1 map] is
    [mol0.move().align(mol1, AtomResultMatcher(map)).molecule()],
    [coordinates mol idx] is [mol.atom(idx).property("coordinates")], [lt] is
    [<] on scores, and [findMCSmatches mol0 mol1 prematch timeout match_light]
    the matcher's answer to the call in [matchAtoms]. *)
Context {Molecule AtomIdx Vector Score Time : Type} `{Inhabited Score}.
Context (align : Molecule -> Molecule -> list (AtomIdx * AtomIdx) -> Molecule).
Context (coordinates : Molecule -> AtomIdx -> Vector).
Context (getRMSD : list Vector -> list Vector -> Score).
Context (lt : Score -> Score -> bool).
Context (findMCSmatches : Molecule -> Molecule -> list (AtomIdx * AtomIdx) ->
                          Time -> bool -> list (list (AtomIdx * AtomIdx))).

(** A mapping: the items of the dictionary, in its iteration order. *)
Abbreviation Mapping := (list (AtomIdx * AtomIdx)).

(** A score times [_Units.Length.angstrom]. *)
Inductive Length : Type := angstrom (magnitude : Score).

Definition magnitude (l : Length) : Score :=
  match l with
  | angstrom s => s
  end.

(** The loop [for map in mappings] of [_score_rmsd]; [molecule0] is
    reassigned by each alignment. *)
Fixpoint for_mappings (molecule0 molecule1 : Molecule) (is_align : bool)
    (mappings : list Mapping) (scores : list Score) : list Score :=
  match mappings with
  | [] => scores
  | map :: rest =>
      let molecule0 := if is_align then align molecule0 molecule1 map else molecule0 in
      let c0 := (fun p => coordinates molecule0 (fst p)) <$> map in
      let c1 := (fun p => coordinates molecule1 (snd p)) <$> map in
      for_mappings molecule0 molecule1 is_align rest (scores ++ [getRMSD c0 c1])%list
  end.

(** [keys = sorted(range(len(scores)), key=lambda k: scores[k])] *)
Definition sorted_keys (scores : list Score) : list nat :=
  sorted lt (fun k => scores !!! k) (seq 0 (length scores)).

Definition _score_rmsd (molecule0 molecule1 : Molecule)
    (mappings : list Mapping) (is_align : bool) : list Mapping * list Length :=
  let scores := for_mappings molecule0 molecule1 is_align mappings [] in
  let keys := sorted_keys scores in
  ((fun x => mappings !!! x) <$> keys,
   (fun x => angstrom (scores !!! x)) <$> keys).

(** What [matchAtoms] returns: [None], one mapping, a list of mappings, or
    the pair of a list of mappings and the list of their scores. *)
Inductive matches : Type :=
| NoMatch
| Best (mapping : Mapping)
| Ranked (mappings : list Mapping)
| RankedScored (mappings : list Mapping) (scores : list Length).

(** [l[0:n]] for [n >= 0] *)
Definition upto {X : Type} (n : Z) (l : list X) : list X := take (Z.to_nat n) l.

Definition scoring_functions : list string := ["RMSD"; "RMSDALIGN"].

(** [matchAtoms], for arguments of the documented types. *)
Definition matchAtoms (molecule0 molecule1 : Molecule) (scoring_function : string)
    (n_matches : Z) (return_scores : bool) (prematch : Mapping) (timeout : Time)
    (match_light : bool) : result matches :=
  let scoring_function := upper (remove_char " " scoring_function) in
  if negb (bool_decide (scoring_function ∈ scoring_functions)) then
    Raise (ValueError "Unsupported scoring function")
  else if n_matches <? 0 then
    Raise (ValueError "'matches' must be positive!")
  else
    let is_align := String.eqb scoring_function "RMSDALIGN" in
    let mappings := findMCSmatches molecule0 molecule1 prematch timeout match_light in
    if (length mappings =? 0)%nat then Return NoMatch
    else if n_matches =? 1 then
      match fst (_score_rmsd molecule0 molecule1 mappings is_align) with
      | best :: _ => Return (Best best)
      | [] => Raise IndexError
      end
    else if return_scores then
      let '(mappings, scores) := _score_rmsd molecule0 molecule1 mappings is_align in
      Return (RankedScored (upto n_matches mappings) (upto n_matches scores))
    else
      Return (Ranked (upto n_matches (fst (_score_rmsd molecule0 molecule1 mappings is_align)))).

(** The scoring function as [matchAtoms] compares it. *)
Definition normalised (scoring_function : string) : string :=
  upper (remove_char " " scoring_function).

(** [keys] lists the candidates by score: a later one never has the smaller
    score, and of two whose scores tie the one given first comes first. *)
Definition ranked (scores : list Score) (keys : list nat) : Prop :=
  forall (i j a b : nat),
    (i < j)%nat -> keys !! i = Some a -> keys !! j = Some b ->
    lt (scores !!! b) (scores !!! a) = false /\
    (lt (scores !!! a) (scores !!! b) = false -> (a < b)%nat).

(** A list of scores in which a later one is never the smaller. *)
Definition nondecreasing (ss : list Length) : Prop :=
  forall (i j : nat) (x y : Length),
    (i < j)%nat -> ss !! i = Some x -> ss !! j = Some y ->
    lt (magnitude y) (magnitude x) = false.

End Scoring.

End Align.

(** ** More of [amber.py]: what the parser reads, sequences of calls, the
    trajectory object *)

Module AmberMore.
Import Py Amber.

(** All the characters of [s] are in the class [p]. *)
Fixpoint every (p : ascii -> bool) (s : string) : bool :=
  match s with
  | EmptyString => true
  | String c s' => p c && every p s'
  end.

(** The pieces of a match, put together again. *)
Definition join (ts : list string) : string := foldr String.append EmptyString ts.

(** How many characters a quantifier lets its class take. *)
Definition quantity (q : quantifier) (took : string) : Prop :=
  match q with
  | Once => String.length took = 1%nat
  | Optional => (String.length took <= 1)%nat
  | ZeroOrMore => True
  | OneOrMore => (1 <= String.length took)%nat
  end.

(** The test at the head of the loop body of [_update_energy_dict]:
    [len(line) > 0 and line[0] is not '|']. *)
Definition reads (line : string) : bool :=
  match line with
  | String c _ =>
      (0 <? String.length line)%nat
      && negb (py_is (computed (String c EmptyString)) (lit "|"))
  | EmptyString => false
  end.

(** The records of all the lines that pass that test, in file order. *)
Definition file_records (ls : list string) : list (string * string) :=
  flat_map (fun line => if reads line then findall record_pattern (upper line) else []) ls.

(** The values of the records whose stripped key is [key], in order. *)
Definition values_for (key : string) (records : list (string * string)) : list string :=
  omap (fun r => if String.eqb (strip (fst r)) key then Some (snd r) else None) records.

(** The series of [key], empty when the key is not in the store. *)
Definition series (d : MultiDict) (key : string) : list string := default [] (d !! key).

(** No key of the store has an empty series. *)
Definition no_empty_series (d : MultiDict) : Prop :=
  forall k l, d !! k = Some l -> l <> [].

(** Every key of the store is unchanged by [.upper()]. *)
Definition upper_keys (d : MultiDict) : Prop :=
  forall k, is_Some (d !! k) -> upper k = k.

(** The characters a record key can hold. *)
Definition key_char (c : ascii) : bool :=
  isdigit c || is_char "-" c || isspace c || is_AZ c || is_char "(" c || is_char ")" c.

(** The characters a record value can hold. *)
Definition value_char (c : ascii) : bool :=
  is_char "-" c || isdigit c || is_char "." c.

(** Every value in the store is made of the characters of a record value
    and is not empty. *)
Definition plain_values (d : MultiDict) : Prop :=
  forall k l v, d !! k = Some l -> v ∈ l -> every value_char v = true /\ v <> EmptyString.

(** The energy info file holds one frame whose step count is [v]: its first
    record has the key NSTEP and the value [v], and no other record has that
    key. *)
Definition one_frame (nrg v : string) : Prop :=
  exists key rest,
    file_records (lines nrg) = (key, v) :: rest /\
    strip key = "NSTEP" /\
    Forall (fun r => strip (fst r) <> "NSTEP") rest.

(** No value of [vs] repeats the one before it, [prev] being the one before
    the first. *)
Fixpoint no_repeat (prev : option string) (vs : list string) : Prop :=
  match vs with
  | [] => True
  | v :: vs' => prev <> Some v /\ no_repeat (Some v) vs'
  end.

(** Successive calls of [_update_energy_dict], one for each state of the
    energy info file in [files]. *)
Definition updates (protocol : ProtocolType) (files : list string) (d : MultiDict)
    : MultiDict :=
  foldl (fun d nrg => fst (_update_energy_dict protocol nrg d)) d files.

(** Successive file events, each with its type and the energy info file as
    it is when the handler runs. *)
Definition events (evs : list (string * string)) (a : amber) : amber :=
  foldl (fun a ev => fst (on_any_event (fst ev) (snd ev) a)) a evs.

(** The frame that index [x] denotes in a trajectory: [x] itself from the
    start, or counted from the end when [x] is negative. *)
Definition nth_frame {Frame : Type} (traj : list Frame) (x : Z) : option Frame :=
  let i := if x <? 0 then Z.of_nat (length traj) + x else x in
  if i <? 0 then None else traj !! Z.to_nat i.

(** The bound that [getFrames] puts on an index. *)
Definition within {Frame : Type} (traj : list Frame) (x : Z) : Prop :=
  Z.abs x <= Z.of_nat (length traj) - 1.

(** *** [Amber.getTrajectory] *)

(** What [getTrajectory] returns when there is a trajectory file: the object
    of one of the two trajectory libraries, holding the frames of the file. *)
Inductive trajectory_object (Frame : Type) : Type :=
| MDTraj (frames : list Frame)
| Universe (frames : list Frame).
Arguments MDTraj {Frame} frames.
Arguments Universe {Frame} frames.

(** The local [format] after the first test: the argument, or the module
    [mdtraj] that the fallback assigns to it. *)
Inductive format_value : Type :=
| FormatStr (s : str)
| FormatModule.

(** [self.getTrajectory(format)]: [nc] is the trajectory file, [None] when it
    does not exist.  The result says whether the warning was issued and what
    is returned; the copy of the topology file and the calls into the two
    libraries are taken to succeed. *)
Definition getTrajectory {Frame : Type} (nc : option (list Frame)) (format : str)
    : bool * option (trajectory_object Frame) :=
  let unknown :=
    negb (bool_decide (upper (text format) ∈ ["MDTRAJ"; "MDANALYSIS"])) in
  let format := if unknown then FormatModule else FormatStr format in
  match nc with
  | Some frames =>
      let is_mdtraj :=
        match format with
        | FormatStr s => py_is s (lit "mdtraj")
        | FormatModule => false
        end in
      (unknown, Some (if is_mdtraj then MDTraj frames else Universe frames))
  | None => (unknown, None)
  end.

(** *** The files: the rest of the first part of [Amber.__init__] *)

(** The local names of [__init__]. *)
Definition init_locals : list string :=
  [ "self"; "system"; "protocol"; "exe"; "name"; "work_dir"; "seed"; "amber_home" ].

(** Reading a name in [__init__]. *)
Definition load_init_name (n : string) : result unit :=
  if bool_decide (n ∈ init_locals ++ module_names)%list then Return ()
  else Raise (NameError n).

(** The file names that the constructor sets. *)
Record files : Type := {
  nrg_file : string;
  rst_file : string;
  prm_file : string;
  config_file : string;
  input_files : list string
}.

(** The lines of [__init__] from the energy dictionary to the list of input
    files.  [wipe] is [open(file, 'w').close()], [is_custom] the attribute
    [_is_custom] of the base class, [work_dir] its attribute [_work_dir], and
    [protocol_path] the argument [protocol] as [os.path.isfile] and the
    attribute [_config_file] take it. *)
Definition init_files (isfile : string -> bool) (wipe : string -> result unit)
    (work_dir name : string) (is_custom : bool) (protocol_path : string) : result files :=
  let nrg := work_dir +:+ "/" +:+ name +:+ ".nrg" in
  _ ← wipe nrg;
  let rst := work_dir +:+ "/" +:+ name +:+ ".rst7" in
  let prm := work_dir +:+ "/" +:+ name +:+ ".prm7" in
  config ←
    (if negb is_custom then Return (work_dir +:+ "/" +:+ name +:+ ".amber")
     else if isfile protocol_path then Return protocol_path
     else
       (* the message is formatted with [x=config_file], read first *)
       _ ← load_init_name "config_file";
       Raise (IOError "AMBER configuration file doesn't exist"));
  Return {| nrg_file := nrg; rst_file := rst; prm_file := prm;
            config_file := config; input_files := [config; rst; prm] |}.

(** Lines 146 to 196 of [__init__]: the executable, then the files. *)
Definition init {Protocol : Type} (environ : gmap string string)
    (isfile : string -> bool) (wipe : string -> result unit)
    (findExe : string -> result string)
    (inherited : option (@exe_value Protocol)) (exe : option string)
    (protocol : Protocol) (protocol_path : string) (is_custom : bool)
    (work_dir name : string) : result (option (@exe_value Protocol) * files) :=
  e ← init_exe environ isfile findExe inherited exe protocol;
  fs ← init_files isfile wipe work_dir name is_custom protocol_path;
  Return (e, fs).

End AmberMore.

(** ** More of [Align/__init__.py]: the score of one candidate *)

Module AlignMore.
Import Py Align.

Section Scores.
Context {Molecule AtomIdx Vector Score : Type}.
Context (align : Molecule -> Molecule -> list (AtomIdx * AtomIdx) -> Molecule).
Context (coordinates : Molecule -> AtomIdx -> Vector).
Context (getRMSD : list Vector -> list Vector -> Score).

(** The body of the loop of [_score_rmsd] after the alignment: the RMSD
    between the coordinates of the mapped atoms of the two molecules. *)
Definition score (molecule0 molecule1 : Molecule) (map : list (AtomIdx * AtomIdx))
    : Score :=
  getRMSD ((fun p => coordinates molecule0 (fst p)) <$> map)
          ((fun p => coordinates molecule1 (snd p)) <$> map).

(** [molecule0] after the alignments on the candidates [maps], one after the
    other. *)
Definition moved (molecule0 molecule1 : Molecule)
    (maps : list (list (AtomIdx * AtomIdx))) : Molecule :=
  foldl (fun m map => align m molecule1 map) molecule0 maps.

End Scores.

(** *** [matchAtoms] with the checks on the types of its arguments *)

Section Checks.
Context {Molecule AtomIdx Vector Score Time : Type} `{Inhabited Score}.
Context (align : Molecule -> Molecule -> list (AtomIdx * AtomIdx) -> Molecule).
Context (coordinates : Molecule -> AtomIdx -> Vector).
Context (getRMSD : list Vector -> list Vector -> Score).
Context (lt : Score -> Score -> bool).
Context (findMCSmatches : Molecule -> Molecule -> list (AtomIdx * AtomIdx) ->
                          Time -> bool -> list (list (AtomIdx * AtomIdx))).

(** A key or a value of a dictionary as the check on the items of
    [prematch] sees it: an atom index, or an object of any other type. *)
Inductive entry : Type :=
| AtomIdxEntry (i : AtomIdx)
| OtherEntry.

(** An argument as the checks [type(x) is not T] see it: an object of one of
    the types they name, with its value, or an object of any other type.  A
    [bool] is not an [int] for these checks. *)
Inductive object : Type :=
| MoleculeObject (m : Molecule)
| StrObject (s : string)
| IntObject (z : Z)
| BoolObject (b : bool)
| DictObject (items : list (entry * entry))
| TimeObject (t : Time)
| OtherObject.

Definition expect_molecule (name : string) (o : object) : result Molecule :=
  match o with
  | MoleculeObject m => Return m
  | _ => Raise (TypeError ("'" +:+ name +:+
                           "' must be of type 'BioSimSpace._SireWrappers.Molecule'"))
  end.

Definition expect_str (name : string) (o : object) : result string :=
  match o with
  | StrObject s => Return s
  | _ => Raise (TypeError ("'" +:+ name +:+ "' must be of type 'str'"))
  end.

Definition expect_int (name : string) (o : object) : result Z :=
  match o with
  | IntObject z => Return z
  | _ => Raise (TypeError ("'" +:+ name +:+ "' must be of type 'int'"))
  end.

Definition expect_bool (name : string) (o : object) : result bool :=
  match o with
  | BoolObject b => Return b
  | _ => Raise (TypeError ("'" +:+ name +:+ "' must be of type 'bool'"))
  end.

Definition expect_dict (name : string) (o : object) : result (list (entry * entry)) :=
  match o with
  | DictObject items => Return items
  | _ => Raise (TypeError ("'" +:+ name +:+ "' must be of type 'dict'"))
  end.

Definition expect_time (name : string) (o : object) : result Time :=
  match o with
  | TimeObject t => Return t
  | _ => Raise (TypeError ("'" +:+ name +:+ "' must be of type 'BioSimSpace.Types.Time'"))
  end.

(** The loop [for idx0, idx1 in prematch.items()]. *)
Fixpoint atom_pairs (items : list (entry * entry))
    : result (list (AtomIdx * AtomIdx)) :=
  match items with
  | [] => Return []
  | (AtomIdxEntry idx0, AtomIdxEntry idx1) :: rest =>
      pairs ← atom_pairs rest; Return ((idx0, idx1) :: pairs)
  | _ :: _ =>
      Raise (TypeError
               "'prematch' dictionary key:value pairs must be of type 'Sire.Mol.AtomIdx'")
  end.

(** [matchAtoms] for arguments of any types: the checks in the order of the
    source, each value check right after the type check of its argument;
    what follows the checks is [Align.matchAtoms], whose two value checks
    then pass a second time.  [return_scores], which the source does not
    check, is given by its truth value. *)
Definition matchAtoms_call (molecule0 molecule1 scoring_function n_matches : object)
    (return_scores : bool) (prematch timeout match_light map0 map1 verbose : object)
    : result (@matches AtomIdx Score) :=
  m0 ← expect_molecule "molecule0" molecule0;
  m1 ← expect_molecule "molecule1" molecule1;
  sf ← expect_str "scoring_function" scoring_function;
  _ ← (if negb (bool_decide (upper (remove_char " " sf) ∈ scoring_functions))
       then Raise (ValueError "Unsupported scoring function") else Return ());
  K ← expect_int "matches" n_matches;
  _ ← (if K <? 0 then Raise (ValueError "'matches' must be positive!") else Return ());
  items ← expect_dict "prematch" prematch;
  pairs ← atom_pairs items;
  t ← expect_time "timeout" timeout;
  ml ← expect_bool "match_light" match_light;
  _ ← expect_dict "map0" map0;
  _ ← expect_dict "map1" map1;
  _ ← expect_bool "verbose" verbose;
  matchAtoms align coordinates getRMSD lt findMCSmatches m0 m1 sf K return_scores
    pairs t ml.

(** A dictionary of atom indices as an object. *)
Definition atom_dict (pairs : list (AtomIdx * AtomIdx)) : object :=
  DictObject ((fun p => (AtomIdxEntry (fst p), AtomIdxEntry (snd p))) <$> pairs).

(** The arguments have the documented types, with these values. *)
Definition documented (molecule0 molecule1 scoring_function n_matches prematch
    timeout match_light map0 map1 verbose : object)
    (m0 m1 : Molecule) (sf : string) (K : Z) (pairs : list (AtomIdx * AtomIdx))
    (t : Time) (ml : bool) : Prop :=
  molecule0 = MoleculeObject m0 /\ molecule1 = MoleculeObject m1 /\
  scoring_function = StrObject sf /\ n_matches = IntObject K /\
  prematch = atom_dict pairs /\ timeout = TimeObject t /\
  match_light = BoolObject ml /\
  (exists items, map0 = DictObject items) /\
  (exists items, map1 = DictObject items) /\
  (exists b, verbose = BoolObject b).

End Checks.

End AlignMore.

(** ** More sample inputs *)

Module MoreSamples.
Import Py Amber AmberMore.

(** The next frame of the dynamics log. *)
Definition frame_200 : string :=
  "NSTEP = 200   TIME(PS) = 0.400  ETOT = -1200.0" +:+ newline.

(** A minimisation log caught while its line of values is being written. *)
Definition header_line : string := "   NSTEP       ENERGY          RMS" +:+ newline.
Definition cut_line : string := "    100" +:+ newline.

(** Banner lines of a dynamics log. *)
Definition banner : string :=
  "| Final performance info" +:+ newline +:+ " ------------------" +:+ newline.

(** Candidates that the matcher gives in the order of their scores. *)
Definition ordered_candidates : list (list (nat * nat)) :=
  [ [(0, 1)]; [(5, 5)]; [(0, 2); (1, 0)] ]%nat.

End MoreSamples.

(** ** Sample inputs *)

Module Samples.
Import Py Amber.

(** One frame of a dynamics log, as one line of the energy info file. *)
Definition frame_100 : string :=
  "NSTEP = 100   TIME(PS) = 0.200  ETOT = -1234.5" +:+ newline.

(** The store after that frame. *)
Definition store_100 : MultiDict :=
  {[ "NSTEP" := ["100"]; "TIME(PS)" := ["0.200"]; "ETOT" := ["-1234.5"] ]}.

(** One frame of a minimisation log: the header that names the columns, the
    line of values, and a line of energy terms. *)
Definition minimisation_log : string :=
  "   NSTEP       ENERGY          RMS" +:+ newline +:+
  "    100      -1.2345E+03     1.2E+01" +:+ newline +:+
  " BOND    =        1.5  ANGLE   =        2.5" +:+ newline.

Definition minimisation_store : MultiDict :=
  {[ "NSTEP" := ["100"]; "ENERGY" := ["-1.2345E+03"];
     "BOND" := ["1.5"]; "ANGLE" := ["2.5"] ]}.

(** An object that has run before: not running, still flagged as watching,
    with the records of the earlier run in its store. *)
Definition stale : amber :=
  {| protocol := PRODUCTION; stdout_dict := {[ "NSTEP" := ["500"] ]};
     is_watching := true; process := Some false |}.

(** A chemistry engine small enough to run: atoms are numbers, a molecule
    has no state, the score of a mapping is the number of its pairs. *)
Definition align (m _ : unit) (_ : list (nat * nat)) : unit := m.
Definition coordinates (_ : unit) (i : nat) : Z := Z.of_nat i.
Definition getRMSD (c0 _ : list Z) : Z := Z.of_nat (length c0).

Definition candidates : list (list (nat * nat)) :=
  [ [(0, 0); (1, 1); (2, 2)]; [(0, 1)]; [(0, 2); (1, 0)]; [(5, 5)] ]%nat.

Definition matcher (_ _ : unit) (_ : list (nat * nat)) (_ : unit) (_ : bool)
    : list (list (nat * nat)) := candidates.

Definition no_matcher (_ _ : unit) (_ : list (nat * nat)) (_ : unit) (_ : bool)
    : list (list (nat * nat)) := [].

End Samples.

(** ** The record store, the watcher, the frames and the executable *)

Module AmberFacts.
Import Py Amber Samples.

Ltac run := cbn [mbind result_bind mret result_ret].

(** *** Reading a frame twice *)

(** The line
    NSTEP = 100   TIME(PS) = 0.200  ETOT = -1234.5
    followed by an exact repeat of it, read into an empty store, leaves one
    frame in the store, not two: every key has a series of length one, and
    the time series of the key NSTEP is the list of the one integer 100.
    This holds when the two lines are in the file at one call, and when the
    file holding the line is read by two successive calls. *)
Example frame_100_read_twice (p : ProtocolType) :
  let both := _update_energy_dict p (frame_100 +:+ frame_100) ∅ in
  let first := _update_energy_dict p frame_100 ∅ in
  let second := _update_energy_dict p frame_100 (fst first) in
  both = (store_100, EarlyReturn) /\
  first = (store_100, EndOfFile) /\
  second = (store_100, EarlyReturn) /\
  store_100 !! "NSTEP" = Some ["100"] /\
  _get_stdout_record store_100 (lit "NSTEP") (Flag true) = Return (VInts [100]).
Proof.
  cbv zeta.
  split; [destruct p; vm_cast_no_check (eq_refl (store_100, EarlyReturn)) |].
  split; [destruct p; vm_cast_no_check (eq_refl (store_100, EndOfFile)) |].
  split; [destruct p; vm_cast_no_check (eq_refl (store_100, EarlyReturn)) |].
  split; vm_compute; reflexivity.
Qed.

(** Keys may start with digits and a dash and may hold a blank; the white
    space in front of a key is part of the match and is stripped later. *)
Example findall_two_records :
  findall record_pattern (upper " 1-4 NB =      1.5  Etot =  -2.25")
  = [("1-4 NB", "1.5"); ("  ETOT", "-2.25")].
Proof. vm_compute. reflexivity. Qed.

(** Minimisation dialect: the first call records the frame, a second call on
    the same file returns at the line of values and changes nothing. *)
Example minimisation_frame_appended_once :
  _update_energy_dict MINIMISATION minimisation_log ∅
    = (minimisation_store, EndOfFile) /\
  _update_energy_dict MINIMISATION minimisation_log minimisation_store
    = (minimisation_store, EarlyReturn).
Proof.
  split.
  - vm_cast_no_check (eq_refl (minimisation_store, EndOfFile)).
  - vm_cast_no_check (eq_refl (minimisation_store, EarlyReturn)).
Qed.

(** *** The parser stops at a repeated step *)

Lemma for_lines_app p h d pre post :
  for_lines p h d (pre ++ post) =
  match for_lines p h d pre with
  | Next h' d' => for_lines p h' d' post
  | s => s
  end.
Proof.
  revert h d. induction pre as [| line pre IH]; intros h d; simpl; [reflexivity |].
  destruct (process_line p h d line); auto.
Qed.

Lemma same_step_true d value :
  same_step d value = Return true ->
  exists l v, d !! "NSTEP" = Some l /\ last l = Some v /\ value = Return v.
Proof.
  unfold same_step. destruct (d !! "NSTEP") as [l |]; [| discriminate].
  destruct value as [v | e]; run; [| discriminate].
  unfold last_item. destruct (last l) as [x |] eqn:Hlast; run; [| discriminate].
  intros [= Heq]. apply String.eqb_eq in Heq. subst. eauto.
Qed.

Lemma for_records_Stop h records d d2 :
  for_records h records d = Stop d2 ->
  exists before key value after,
    records = (before ++ (key, value) :: after)%list /\
    strip key = "NSTEP" /\
    for_records h before d = Next h d2 /\
    same_step d2 (Return value) = Return true.
Proof.
  revert d. induction records as [| [key value] rest IH]; intros d; simpl; [discriminate |].
  destruct (String.eqb (strip key) "NSTEP") eqn:Hkey.
  - destruct (same_step d (Return value)) as [[|] | e] eqn:Hsame.
    + intros [= <-]. exists [], key, value, rest.
      apply String.eqb_eq in Hkey. auto.
    + intros Hrest. destruct (IH _ Hrest) as (before & k & v & after & -> & Hk & Hb & Hs).
      exists ((key, value) :: before), k, v, after. repeat split; auto.
      simpl. rewrite Hkey, Hsame. exact Hb.
    + discriminate.
  - intros Hrest. destruct (IH _ Hrest) as (before & k & v & after & -> & Hk & Hb & Hs).
    exists ((key, value) :: before), k, v, after. repeat split; auto.
    simpl. rewrite Hkey. exact Hb.
Qed.

Lemma for_records_repeat h before key value after d d2 :
  strip key = "NSTEP" ->
  for_records h before d = Next h d2 ->
  same_step d2 (Return value) = Return true ->
  for_records h (before ++ (key, value) :: after) d = Stop d2.
Proof.
  intros Hkey. revert d. induction before as [| [k v] before IH]; intros d; simpl.
  - intros [= <-] Hsame. rewrite Hkey. simpl. rewrite Hsame. reflexivity.
  - destruct (String.eqb (strip k) "NSTEP").
    + destruct (same_step d (Return v)) as [[|] | e]; try discriminate. auto.
    + auto.
Qed.


Lemma header_repeat d c rest :
  py_is (computed (String c EmptyString)) (lit "|") = false ->
  names_columns (String c rest) = false ->
  same_step d (word (split (upper (String c rest))) 0) = Return true ->
  process_line MINIMISATION true d (String c rest) = Stop d.
Proof.
  intros Hbar Hcol Hsame. unfold process_line.
  rewrite Hbar, Hcol, Hsame. reflexivity.
Qed.

(** What a [return] from inside the loop body means: a step-count test has
    just answered yes on the store returned. *)
Lemma process_line_Stop p h d line d2 :
  process_line p h d line = Stop d2 ->
  exists l v,
    d2 !! "NSTEP" = Some l /\ last l = Some v /\
    ((is_minimisation p = true /\ h = true /\ d2 = d /\
      word (split (upper line)) 0 = Return v) \/
     (exists key, (key, v) ∈ findall record_pattern (upper line) /\
                  strip key = "NSTEP")).
Proof.
  assert (Hrec : forall h0 d0,
    for_records h0 (findall record_pattern (upper line)) d0 = Stop d2 ->
    exists l v, d2 !! "NSTEP" = Some l /\ last l = Some v /\
      exists key, (key, v) ∈ findall record_pattern (upper line) /\
                  strip key = "NSTEP").
  { intros h0 d0 Hstop.
    destruct (for_records_Stop _ _ _ _ Hstop)
      as (before & key & value & after & Hfind & Hkey & _ & Hsame).
    destruct (same_step_true _ _ Hsame) as (l & v & Hl & Hv & [= ->]).
    exists l, v. repeat split; auto. exists key. split; auto.
    rewrite Hfind. apply elem_of_app. right. apply elem_of_cons. left. reflexivity. }
  unfold process_line. destruct line as [| c rest]; [discriminate |].
  destruct (_ && _); [| discriminate].
  destruct (is_minimisation p) eqn:Hmin.
  - destruct (names_columns (String c rest)); [discriminate |].
    destruct h.
    + destruct (same_step d (word (split (upper (String c rest))) 0))
        as [[|] | e] eqn:Hsame; [ | | discriminate].
      * intros [= <-].
        destruct (same_step_true _ _ Hsame) as (l & v & Hl & Hv & Hw).
        exists l, v. repeat split; auto.
      * destruct (word (split (upper (String c rest))) 0); [| discriminate].
        destruct (word (split (upper (String c rest))) 1); [| discriminate].
        intros Hstop. destruct (Hrec _ _ Hstop) as (l & v & ? & ? & ?). eauto 6.
    + intros Hstop. destruct (Hrec _ _ Hstop) as (l & v & ? & ? & ?). eauto 6.
  - intros Hstop. destruct (Hrec _ _ Hstop) as (l & v & ? & ? & ?). eauto 6.
Qed.

(** The converse of the step-count test: when the loop body returns at some
    line of the file, the whole call ends there without an exception, the
    store it leaves has the candidate as the last value of the key NSTEP,
    and the candidate is the first word of the line (minimisation, after a
    header) or the value of a record whose key is NSTEP. *)
Lemma return_is_a_repeated_step p nrg d pre line post h1 d1 d2 :
  lines nrg = (pre ++ line :: post)%list ->
  for_lines p false d pre = Next h1 d1 ->
  process_line p h1 d1 line = Stop d2 ->
  _update_energy_dict p nrg d = (d2, EarlyReturn) /\
  exists l v,
    d2 !! "NSTEP" = Some l /\ last l = Some v /\
    ((is_minimisation p = true /\ h1 = true /\ d2 = d1 /\
      word (split (upper line)) 0 = Return v) \/
     (exists key, (key, v) ∈ findall record_pattern (upper line) /\
                  strip key = "NSTEP")).
Proof.
  intros Hlines Hpre Hline. split.
  - unfold _update_energy_dict. rewrite Hlines, for_lines_app, Hpre.
    simpl. rewrite Hline. reflexivity.
  - eapply process_line_Stop; eauto.
Qed.

(** *** The store only grows *)


Lemma extends_refl d : extends d d.
Proof. intros k l Hk. exists []. rewrite app_nil_r. exact Hk. Qed.

Lemma extends_trans d1 d2 d3 : extends d1 d2 -> extends d2 d3 -> extends d1 d3.
Proof.
  intros H12 H23 k l Hk.
  destruct (H12 _ _ Hk) as [l1 Hl1]. destruct (H23 _ _ Hl1) as [l2 Hl2].
  exists (l1 ++ l2)%list. rewrite app_assoc. exact Hl2.
Qed.

Lemma extends_setitem key value d : extends d (setitem key value d).
Proof.
  intros k l Hk. unfold setitem. destruct (decide (key = k)) as [-> | Hne].
  - exists [value]. rewrite lookup_insert_eq, Hk. reflexivity.
  - exists []. rewrite lookup_insert_ne by exact Hne. rewrite app_nil_r. exact Hk.
Qed.


Lemma extends_for_records h records d : extends d (store_of (for_records h records d)).
Proof.
  revert d. induction records as [| [key value] rest IH]; intros d; simpl.
  - apply extends_refl.
  - assert (Hgo : extends d (store_of (for_records h rest (setitem (strip key) value d)))).
    { eapply extends_trans; [apply extends_setitem | apply IH]. }
    destruct (String.eqb (strip key) "NSTEP"); [| exact Hgo].
    destruct (same_step d (Return value)) as [[|] | e]; simpl;
      [apply extends_refl | exact Hgo | apply extends_refl].
Qed.

Lemma extends_process_line p h d line : extends d (store_of (process_line p h d line)).
Proof.
  unfold process_line. destruct line as [| c rest]; [apply extends_refl |].
  destruct (_ && _); [| apply extends_refl].
  destruct (is_minimisation p); [| apply extends_for_records].
  destruct (names_columns _); [apply extends_refl |].
  destruct h; [| apply extends_for_records].
  destruct (same_step d _) as [[|] | e]; [apply extends_refl | | apply extends_refl].
  destruct (word _ 0) as [nstep | e]; [| apply extends_refl].
  destruct (word _ 1) as [energy | e]; [| apply extends_setitem].
  eapply extends_trans; [apply extends_setitem |].
  eapply extends_trans; [apply extends_setitem |].
  apply extends_for_records.
Qed.

Lemma extends_for_lines p h d ls : extends d (store_of (for_lines p h d ls)).
Proof.
  revert h d. induction ls as [| line ls IH]; intros h d; simpl; [apply extends_refl |].
  pose proof (extends_process_line p h d line) as Hline.
  destruct (process_line p h d line) as [h' d' | d' | e d']; simpl in *; auto.
  eapply extends_trans; [exact Hline | apply IH].
Qed.

Lemma extends_update p nrg d : extends d (fst (_update_energy_dict p nrg d)).
Proof.
  unfold _update_energy_dict.
  pose proof (extends_for_lines p false d (lines nrg)) as Hext.
  destruct (for_lines p false d (lines nrg)); exact Hext.
Qed.

(** *** The watcher *)

Lemma on_modified nrg a :
  let a0 := if negb (is_watching a) then with_watching true (with_dict ∅ a) else a in
  let parsed := _update_energy_dict (protocol a) nrg (stdout_dict a0) in
  on_any_event "modified" nrg a
  = ({| protocol := protocol a; stdout_dict := fst parsed;
        is_watching := true; process := process a |},
     outcome (snd parsed)).
Proof.
  unfold on_any_event, update. cbn [String.eqb Ascii.eqb Bool.eqb andb].
  destruct a as [p d [|] r]; cbn; destruct (_update_energy_dict _ _ _); reflexivity.
Qed.

(** C8. For an object whose child process is not running, [start] leaves the
    flag at not-watching.  The first event of type modified after that sets
    the flag and parses the file into an empty store, whatever the store held
    before.  A further event of type modified leaves the flag set and parses
    the file into the store as it is: every series of the store before the
    event is the beginning of the series of that key after it.  Events of
    another type change nothing. *)
Theorem watcher_clears_once_then_accumulates (a : amber) (nrg nrg' : string) :
  process a <> Some true ->
  let started := start a in
  let first := on_any_event "modified" nrg started in
  let second := on_any_event "modified" nrg' (fst first) in
  is_watching started = false /\
  (forall ev, ev <> "modified" -> on_any_event ev nrg started = (started, Return ())) /\
  is_watching (fst first) = true /\
  stdout_dict (fst first) = fst (_update_energy_dict (protocol a) nrg ∅) /\
  snd first = outcome (snd (_update_energy_dict (protocol a) nrg ∅)) /\
  is_watching (fst second) = true /\
  stdout_dict (fst second) =
    fst (_update_energy_dict (protocol a) nrg' (stdout_dict (fst first))) /\
  snd second =
    outcome (snd (_update_energy_dict (protocol a) nrg' (stdout_dict (fst first)))) /\
  extends (stdout_dict (fst first)) (stdout_dict (fst second)).
Proof.
  intros Hrun. cbv zeta.
  assert (Hstart : start a = with_process (Some true) (with_watching false a)).
  { unfold start. destruct (process a) as [[|] |]; congruence. }
  rewrite Hstart. clear Hstart.
  pose proof (on_modified nrg (with_process (Some true) (with_watching false a))) as Hfirst.
  cbv zeta in Hfirst. cbn [is_watching with_process with_watching with_dict negb
                           protocol stdout_dict process] in Hfirst.
  rewrite Hfirst. cbn [fst snd].
  match goal with
  | |- context [on_any_event "modified" nrg' ?w] =>
      pose proof (on_modified nrg' w) as Hsecond
  end.
  cbv zeta in Hsecond. cbn [is_watching negb protocol stdout_dict process] in Hsecond.
  rewrite Hsecond. cbn [fst snd is_watching stdout_dict].
  split; [reflexivity |].
  split.
  { intros ev Hev. unfold on_any_event.
    destruct (String.eqb ev "modified") eqn:E; [| reflexivity].
    apply String.eqb_eq in E. contradiction. }
  repeat (split; [reflexivity |]).
  apply extends_update.
Qed.

Lemma watcher_clears_once_then_accumulates_witness :
  process stale <> Some true /\
  is_watching (start stale) = false /\
  is_watching (fst (on_any_event "modified" frame_100 (start stale))) = true /\
  stdout_dict (fst (on_any_event "modified" frame_100 (start stale))) = store_100.
Proof.
  assert (Hrun : process stale <> Some true) by discriminate.
  pose proof (watcher_clears_once_then_accumulates stale frame_100 frame_100 Hrun) as Hw.
  cbv zeta in Hw. destruct Hw as (Hstart & _ & Hflag & Hstore & _).
  split; [exact Hrun |]. split; [exact Hstart |]. split; [exact Hflag |].
  rewrite Hstore. vm_compute. reflexivity.
Defined.


(** *** The queries *)

(** A key made at run time is never the object of the literal ['NSTEP']. *)
Lemma computed_key_is_not_literal (k : string) :
  py_is (computed k) (lit "NSTEP") = false.
Proof.
  unfold py_is. cbn [text computed lit org].
  destruct k as [| c [| c' k']]; [reflexivity | | reflexivity].
  cbn. destruct (Ascii.eqb c "N"); reflexivity.
Qed.

Lemma query_empty_store d key time_series :
  d = ∅ -> _get_stdout_record d key time_series = Return VNone.
Proof. intros ->. reflexivity. Qed.

Lemma query_unseen_key d key time_series :
  d !! text key = None -> _get_stdout_record d key time_series = Return VNone.
Proof.
  intros Hk. unfold _get_stdout_record, getitem. rewrite Hk.
  destruct (size d =? 0)%nat; [reflexivity |].
  destruct time_series as [[|] |]; destruct (py_is key (lit "NSTEP")); reflexivity.
Qed.

Lemma float_of_str_raises x e :
  float_of_str x = Raise e -> e = ValueError "could not convert string to float".
Proof. unfold float_of_str. intros Hx. repeat case_match; congruence. Qed.

Lemma int_of_str_raises x e :
  int_of_str x = Raise e -> e = ValueError "invalid literal for int()".
Proof. unfold int_of_str. intros Hx. repeat case_match; congruence. Qed.

Lemma query_latest_float d key l x :
  py_is key (lit "NSTEP") = false ->
  d !! text key = Some l -> last l = Some x ->
  _get_stdout_record d key (Flag false) =
    match float_of_str x with
    | Return f => Return (VFloat f)
    | Raise e => Raise e
    end.
Proof.
  intros His Hk Hl. unfold _get_stdout_record, getitem, last_item.
  destruct (size d =? 0)%nat eqn:Hsize.
  { apply Nat.eqb_eq, map_size_empty_iff in Hsize. subst d.
    rewrite lookup_empty in Hk. discriminate. }
  rewrite His, Hk. run. rewrite Hl. run.
  destruct (float_of_str x) as [f | e] eqn:Hx; run; [reflexivity |].
  rewrite (float_of_str_raises _ _ Hx). reflexivity.
Qed.

Lemma query_latest_step d l x :
  d !! "NSTEP" = Some l -> last l = Some x ->
  _get_stdout_record d (lit "NSTEP") (Flag false) =
    match int_of_str x with
    | Return z => Return (VInt z)
    | Raise e => Raise e
    end.
Proof.
  intros Hk Hl. unfold _get_stdout_record, getitem, last_item.
  destruct (size d =? 0)%nat eqn:Hsize.
  { apply Nat.eqb_eq, map_size_empty_iff in Hsize. subst d.
    rewrite lookup_empty in Hk. discriminate. }
  change (py_is (lit "NSTEP") (lit "NSTEP")) with true. cbn [text lit].
  rewrite Hk. run. rewrite Hl. run.
  destruct (int_of_str x) as [z | e] eqn:Hx; run; [reflexivity |].
  rewrite (int_of_str_raises _ _ Hx). reflexivity.
Qed.


Lemma except_Return r v :
  except_KeyError r = Return v -> r = Return v \/ v = VNone.
Proof.
  destruct r as [x | []]; simpl; intros Hr; try discriminate;
    injection Hr as <-; auto.
Qed.

(** Through [getRecord] no key reaches the integer branch. *)
Lemma getRecord_never_an_integer record nrg time_series a :
  (forall z, snd (getRecord record nrg time_series a) <> Return (VInt z)) /\
  (forall l, snd (getRecord record nrg time_series a) <> Return (VInts l)).
Proof.
  unfold getRecord, getter. destruct (update nrg a) as [a' e]. cbn [snd].
  assert (Hq : forall v, _get_stdout_record (stdout_dict a')
                 (computed (upper (strip record))) time_series = Return v ->
               (forall z, v <> VInt z) /\ (forall l, v <> VInts l)).
  { intros v. unfold _get_stdout_record.
    rewrite computed_key_is_not_literal.
    destruct (size _ =? 0)%nat; [intros [= <-]; split; discriminate |].
    destruct (match time_series with Flag b => b | NotBool => false end);
      intros Hv; apply except_Return in Hv as [Hv | ->]; try (split; discriminate).
    - revert Hv. destruct (getitem _ _) as [l |]; run; [| discriminate].
      destruct (comprehension float_of_str l); run; [| discriminate].
      intros [= <-]. split; discriminate.
    - revert Hv. destruct (getitem _ _) as [l |]; run; [| discriminate].
      destruct (last_item l); run; [| discriminate].
      destruct (float_of_str _); run; [| discriminate].
      intros [= <-]. split; discriminate. }
  destruct e; cbn [outcome]; run.
  - split; intros ? Hv; apply Hq in Hv as [Hz Hl]; [eapply Hz | eapply Hl]; reflexivity.
  - split; intros ? Hv; apply Hq in Hv as [Hz Hl]; [eapply Hz | eapply Hl]; reflexivity.
  - split; discriminate.
Qed.

(** C6. At a store holding the one frame NSTEP = 100, the latest-value query
    [getRecord("NSTEP")] returns the float 100.0 and the time-series query
    the list of that float, where the claim has the integer 100: the key
    [record.strip().upper()] is a new string object, so the test
    [key is 'NSTEP'] of [_get_stdout_record] is false.  [getStep], which
    passes the literal, gets the integers. *)
Theorem getRecord_step_count_is_a_float :
  snd (getRecord "NSTEP" frame_100 (Flag false) (fresh PRODUCTION))
    = Return (VFloat (Finite (inject_Z 100))) /\
  snd (getRecord "NSTEP" frame_100 (Flag true) (fresh PRODUCTION))
    = Return (VFloats [Finite (inject_Z 100)]) /\
  snd (getStep frame_100 (Flag false) (fresh PRODUCTION)) = Return (VInt 100) /\
  snd (getStep frame_100 (Flag true) (fresh PRODUCTION)) = Return (VInts [100]).
Proof. repeat split; vm_compute; reflexivity. Qed.

(** *** The executable *)

Lemma init_exe_search_order {Protocol : Type} environ isfile findExe inherited
    (protocol : Protocol) :
  (forall exe, isfile exe = false ->
     exists msg, init_exe environ isfile findExe inherited (Some exe) protocol
                 = Raise (IOError msg)) /\
  (forall home, environ !! "AMBERHOME" = Some home ->
     isfile (home +:+ "/bin/sander") = true ->
     init_exe environ isfile findExe inherited None protocol
       = Return (Some (ExePath (home +:+ "/bin/sander")))) /\
  (environ !! "AMBERHOME" = None ->
     init_exe environ isfile findExe inherited None protocol
       = match findExe "sander" with
         | Return p => Return (Some (ExePath p))
         | Raise e => Raise e
         end).
Proof.
  repeat split.
  - intros exe Hexe. unfold init_exe. rewrite Hexe. eauto.
  - intros home Hhome Hfile. unfold init_exe. rewrite Hhome, Hfile. reflexivity.
  - intros Hhome. unfold init_exe. rewrite Hhome. destruct (findExe "sander"); reflexivity.
Qed.

(** With AMBERHOME set and no sander under it, nothing is raised, the system
    path is not searched and the attribute is left as it was. *)
Lemma init_exe_amberhome_without_sander {Protocol : Type} environ isfile findExe
    inherited (protocol : Protocol) home :
  environ !! "AMBERHOME" = Some home ->
  isfile (home +:+ "/bin/sander") = false ->
  init_exe environ isfile findExe inherited None protocol = Return inherited.
Proof. intros Hhome Hfile. unfold init_exe. rewrite Hhome, Hfile. reflexivity. Qed.

(** C9. When an explicit path is given and the file exists, the attribute
    [_exe] is set to the protocol object, not to the path: the executable the
    claim says is used is not the one stored. *)
Theorem init_exe_explicit_path_stores_protocol {Protocol : Type} environ isfile
    findExe inherited (exe : string) (protocol : Protocol) :
  isfile exe = true ->
  init_exe environ isfile findExe inherited (Some exe) protocol
    = Return (Some (ExeProtocol protocol)) /\
  init_exe environ isfile findExe inherited (Some exe) protocol
    <> Return (Some (ExePath exe)).
Proof.
  intros Hexe. unfold init_exe. rewrite Hexe. split; [reflexivity | discriminate].
Qed.

Lemma init_exe_explicit_path_stores_protocol_witness :
  init_exe ∅ (fun _ => true) (fun _ => Raise (IOError "not found")) None
      (Some "/opt/amber/bin/sander") MINIMISATION
    = Return (Some (ExeProtocol MINIMISATION)) /\
  init_exe ∅ (fun _ => true) (fun _ => Raise (IOError "not found")) None
      (Some "/opt/amber/bin/sander") MINIMISATION
    <> Return (Some (ExePath "/opt/amber/bin/sander")).
Proof.
  apply (init_exe_explicit_path_stores_protocol ∅ (fun _ => true)
           (fun _ => Raise (IOError "not found")) None
           "/opt/amber/bin/sander" MINIMISATION).
  reflexivity.
Defined.

(** *** Frames *)

Lemma past_end_guard (n : nat) : (Z.abs (Z.of_nat n) >? Z.of_nat n - 1) = true.
Proof. rewrite Z.gtb_ltb. apply Z.ltb_lt. lia. Qed.

(** No name [s] is in scope in [getFrames]. *)
Lemma load_s : load_name "s" = Raise (NameError "s").
Proof. reflexivity. Qed.

Lemma getFrames_one_past_end {Frame : Type} (work_dir : string) (traj : list Frame) :
  getFrames work_dir (Some traj) (OneIndex (nFrames (Some traj))) = Raise (NameError "s").
Proof.
  unfold getFrames, nFrames. run. unfold for_indices.
  rewrite past_end_guard. reflexivity.
Qed.

Lemma frame_at_nat {Frame : Type} (traj : list Frame) (i : nat) (f : Frame) :
  traj !! i = Some f -> frame_at traj (Z.of_nat i) = Return f.
Proof.
  intros Hf. unfold frame_at. cbv zeta.
  destruct (Z.ltb_spec (Z.of_nat i) 0) as [? | _]; [lia |]. cbv iota.
  destruct (Z.ltb_spec (Z.of_nat i) 0) as [? | _]; [lia |].
  rewrite Nat2Z.id, Hf. reflexivity.
Qed.

Lemma getFrames_in_range {Frame : Type} (work_dir : string) (traj : list Frame)
    (i : nat) (f : Frame) :
  traj !! i = Some f ->
  getFrames work_dir (Some traj) (OneIndex (Z.of_nat i)) = Return (Some [f]).
Proof.
  intros Hf. pose proof (lookup_lt_Some _ _ _ Hf) as Hlt.
  unfold getFrames. run. unfold for_indices.
  replace (Z.abs (Z.of_nat i) >? Z.of_nat (length traj) - 1) with false
    by (symmetry; rewrite Z.gtb_ltb; apply Z.ltb_ge; lia).
  rewrite (frame_at_nat _ _ _ Hf). reflexivity.
Qed.

(** C5. On a trajectory of [n >= 1] frames, index 0 gives the first frame
    and index [n - 1] the last one.  Index [n] leaves [getFrames] by an
    exception, not by [None]; the exception is the [NameError] of the name
    [s] read while the message of the out-of-range [ValueError] is built, so
    that [ValueError] is never raised. *)
Theorem getFrames_index_bounds {Frame : Type} (work_dir : string)
    (f0 : Frame) (rest : list Frame) :
  let traj := f0 :: rest in
  let n := nFrames (Some traj) in
  1 <= n /\
  getFrames work_dir (Some traj) (OneIndex 0) = Return (Some [f0]) /\
  (exists f, last traj = Some f /\
     getFrames work_dir (Some traj) (OneIndex (n - 1)) = Return (Some [f])) /\
  getFrames work_dir (Some traj) (OneIndex n) = Raise (NameError "s") /\
  (forall msg, getFrames work_dir (Some traj) (OneIndex n) <> Raise (ValueError msg)).
Proof.
  cbv zeta. split; [cbn [nFrames length]; lia |].
  split; [apply (getFrames_in_range work_dir (f0 :: rest) 0); reflexivity |].
  split.
  - destruct (last (f0 :: rest)) as [f |] eqn:Hlast.
    + exists f. split; [reflexivity |].
      rewrite last_lookup in Hlast. cbn [length Nat.pred] in Hlast.
      replace (nFrames (Some (f0 :: rest)) - 1) with (Z.of_nat (length rest))
        by (cbn [nFrames length]; lia).
      apply getFrames_in_range. exact Hlast.
    + apply last_None in Hlast. discriminate.
  - rewrite getFrames_one_past_end. split; [reflexivity | discriminate].
Qed.

(** C10. With a trajectory present, the empty list of indices passes the
    type check, the loop over the indices runs no iteration and leaves
    [frame_file] unassigned, and the removal of that file raises: an
    exception, not an empty list of frames. *)
Theorem getFrames_empty_list {Frame : Type} (work_dir : string) (traj : list Frame) :
  ints [] = Some [] /\
  for_indices work_dir traj (Z.of_nat (length traj) - 1) [] [] None = Return ([], None) /\
  getFrames work_dir (Some traj) (IndexList []) = Raise (UnboundLocalError "frame_file") /\
  getFrames work_dir (Some traj) (IndexList []) <> Return (Some []).
Proof. repeat split. discriminate. Qed.

End AmberFacts.

(** ** The ranking of the candidate mappings *)

Module AlignFacts.
Import Py Align.

Section SortFacts.
Context {A K : Type} (lt : K -> K -> bool).

Lemma insert_Permutation (x : A * K) l : insert lt x l ≡ₚ x :: l.
Proof.
  induction l as [| y l IH]; simpl; [reflexivity |].
  destruct (lt (snd y) (snd x)); [| reflexivity].
  rewrite IH. apply Permutation_swap.
Qed.

Lemma sort_Permutation (l : list (A * K)) : sort lt l ≡ₚ l.
Proof.
  induction l as [| x l IH]; simpl; [reflexivity |].
  rewrite insert_Permutation, IH. reflexivity.
Qed.

Lemma sorted_Permutation (key : A -> K) (l : list A) : sorted lt key l ≡ₚ l.
Proof.
  unfold sorted. rewrite sort_Permutation.
  induction l as [| a l IH]; [reflexivity |].
  cbn. apply Permutation_skip. exact IH.
Qed.

(** [<] on the keys is a strict weak order. *)
Hypothesis lt_asym : forall a b, lt a b = true -> lt b a = false.
Hypothesis not_lt_trans :
  forall a b c, lt b a = false -> lt c b = false -> lt c a = false.

Lemma insert_in_order (R : A -> A -> Prop) (x : A * K) l :
  StronglySorted (in_order lt R) l ->
  Forall (fun y => R (fst x) (fst y)) l ->
  StronglySorted (in_order lt R) (insert lt x l).
Proof.
  induction l as [| y l IH]; intros Hsorted Hx; simpl.
  - repeat constructor.
  - apply StronglySorted_inv in Hsorted as [Hl Hy].
    apply Forall_cons in Hx as [Hxy Hxl].
    destruct (lt (snd y) (snd x)) eqn:Hlt.
    + constructor; [apply IH; assumption |].
      rewrite insert_Permutation. constructor; [| exact Hy].
      split; [apply lt_asym; exact Hlt | congruence].
    + constructor; [constructor; assumption |].
      constructor; [split; auto |].
      rewrite Forall_forall in Hy, Hxl |- *. intros z Hz.
      destruct (Hy z Hz) as [Hzy _].
      split; [eapply not_lt_trans; eassumption | intros _; apply Hxl; exact Hz].
Qed.

Lemma sort_in_order (R : A -> A -> Prop) (l : list (A * K)) :
  StronglySorted (fun x y => R (fst x) (fst y)) l ->
  StronglySorted (in_order lt R) (sort lt l).
Proof.
  induction l as [| x l IH]; intros Hl; simpl; [constructor |].
  apply StronglySorted_inv in Hl as [Hl Hx].
  apply insert_in_order; [apply IH; exact Hl |].
  rewrite sort_Permutation. exact Hx.
Qed.

End SortFacts.

Lemma StronglySorted_lookup {X : Type} (R : X -> X -> Prop) (l : list X)
    (i j : nat) (x y : X) :
  StronglySorted R l -> (i < j)%nat -> l !! i = Some x -> l !! j = Some y -> R x y.
Proof.
  intros Hl. revert i j. induction Hl as [| z l Hl IH Hz]; intros i j Hij Hi Hj.
  - discriminate.
  - destruct j as [| j]; [lia |]. simpl in Hj.
    destruct i as [| i]; simpl in Hi.
    + injection Hi as ->. rewrite Forall_forall in Hz. apply Hz.
      eapply list_elem_of_lookup_2; eassumption.
    + apply (IH i j); [lia | assumption | assumption].
Qed.

Lemma seq_StronglySorted (start len : nat) : StronglySorted Nat.lt (seq start len).
Proof.
  revert start. induction len as [| len IH]; intros start; simpl; constructor.
  - apply IH.
  - rewrite Forall_forall. intros y Hy. apply elem_of_seq in Hy. unfold Nat.lt. lia.
Qed.

Lemma lookup_total_seq {X : Type} `{Inhabited X} (l : list X) :
  (fun k => l !!! k) <$> seq 0 (length l) = l.
Proof.
  apply list_eq. intros i. rewrite list_lookup_fmap.
  destruct (decide (i < length l)%nat) as [Hlt | Hge].
  - rewrite lookup_seq_lt by exact Hlt. simpl.
    symmetry. apply list_lookup_lookup_total_lt. exact Hlt.
  - rewrite lookup_seq_ge by lia. rewrite lookup_ge_None_2 by lia. reflexivity.
Qed.

Section ScoringFacts.
Context {Molecule AtomIdx Vector Score Time : Type} `{Inhabited Score}.
Context (align : Molecule -> Molecule -> list (AtomIdx * AtomIdx) -> Molecule).
Context (coordinates : Molecule -> AtomIdx -> Vector).
Context (getRMSD : list Vector -> list Vector -> Score).
Context (lt : Score -> Score -> bool).
Context (findMCSmatches : Molecule -> Molecule -> list (AtomIdx * AtomIdx) ->
                          Time -> bool -> list (list (AtomIdx * AtomIdx))).

Local Abbreviation score_rmsd := (_score_rmsd align coordinates getRMSD lt).
Local Abbreviation match_atoms := (matchAtoms align coordinates getRMSD lt findMCSmatches).
Local Abbreviation scores_of m0 m1 a ms := (for_mappings align coordinates getRMSD m0 m1 a ms []).

Lemma length_for_mappings m0 m1 a (ms : list (list (AtomIdx * AtomIdx))) acc :
  length (for_mappings align coordinates getRMSD m0 m1 a ms acc)
  = (length acc + length ms)%nat.
Proof.
  revert m0 acc. induction ms as [| m ms IH]; intros m0 acc; simpl; [lia |].
  rewrite IH, length_app. simpl. lia.
Qed.

Lemma length_scores m0 m1 a (ms : list (list (AtomIdx * AtomIdx))) :
  length (scores_of m0 m1 a ms) = length ms.
Proof. rewrite length_for_mappings. reflexivity. Qed.

Lemma sorted_keys_Permutation (scores : list Score) :
  sorted_keys lt scores ≡ₚ seq 0 (length scores).
Proof. apply sorted_Permutation. Qed.

Lemma length_sorted_keys (scores : list Score) :
  length (sorted_keys lt scores) = length scores.
Proof. rewrite sorted_keys_Permutation. apply length_seq. Qed.

(** All the candidates are in the result. *)
Lemma score_rmsd_Permutation m0 m1 a (ms : list (list (AtomIdx * AtomIdx))) :
  fst (score_rmsd m0 m1 ms a) ≡ₚ ms.
Proof.
  unfold _score_rmsd. cbn [fst].
  rewrite sorted_keys_Permutation, length_scores. rewrite lookup_total_seq. reflexivity.
Qed.

Lemma length_score_rmsd m0 m1 a (ms : list (list (AtomIdx * AtomIdx))) :
  length (fst (score_rmsd m0 m1 ms a)) = length ms /\
  length (snd (score_rmsd m0 m1 ms a)) = length ms.
Proof.
  unfold _score_rmsd. cbn [fst snd].
  rewrite !length_fmap, length_sorted_keys, length_scores. auto.
Qed.

(** [matchAtoms] once its arguments have passed the checks. *)
Lemma matchAtoms_checked m0 m1 sf K rs pre t ml :
  normalised sf ∈ scoring_functions -> 0 <= K ->
  match_atoms m0 m1 sf K rs pre t ml =
    let mappings := findMCSmatches m0 m1 pre t ml in
    let is_align := String.eqb (normalised sf) "RMSDALIGN" in
    if (length mappings =? 0)%nat then Return NoMatch
    else if K =? 1 then
      match fst (score_rmsd m0 m1 mappings is_align) with
      | best :: _ => Return (Best best)
      | [] => Raise IndexError
      end
    else if rs then
      Return (RankedScored (upto K (fst (score_rmsd m0 m1 mappings is_align)))
                           (upto K (snd (score_rmsd m0 m1 mappings is_align))))
    else Return (Ranked (upto K (fst (score_rmsd m0 m1 mappings is_align)))).
Proof.
  intros Hsf HK. unfold matchAtoms. fold (normalised sf).
  rewrite bool_decide_true by exact Hsf. cbn [negb].
  destruct (Z.ltb_spec K 0) as [? | _]; [lia |]. cbv zeta.
  destruct (length _ =? 0)%nat; [reflexivity |].
  destruct (K =? 1); [reflexivity |].
  destruct rs; [| reflexivity].
  destruct (score_rmsd _ _ _ _). reflexivity.
Qed.

Lemma matchAtoms_ranked m0 m1 sf K rs pre t ml :
  normalised sf ∈ scoring_functions -> 1 < K ->
  findMCSmatches m0 m1 pre t ml <> [] ->
  let scored := score_rmsd m0 m1 (findMCSmatches m0 m1 pre t ml)
                  (String.eqb (normalised sf) "RMSDALIGN") in
  match_atoms m0 m1 sf K rs pre t ml =
    Return (if rs then RankedScored (upto K (fst scored)) (upto K (snd scored))
            else Ranked (upto K (fst scored))).
Proof.
  intros Hsf HK Hne. rewrite matchAtoms_checked by (auto; lia). cbv zeta.
  destruct (findMCSmatches m0 m1 pre t ml) as [| m ms] eqn:Hm; [contradiction |].
  cbn [length Nat.eqb].
  destruct (Z.eqb_spec K 1) as [? | _]; [lia |].
  destruct rs; reflexivity.
Qed.

Lemma upto_all {X : Type} (K : Z) (l : list X) :
  Z.of_nat (length l) <= K -> upto K l = l.
Proof. intros HK. unfold upto. apply take_ge. lia. Qed.

(** C7. When the arguments pass the checks of [matchAtoms], so that the
    matcher is called, and the matcher returns no candidate, the result is
    [None]: a value, not an exception. *)
Theorem matchAtoms_no_candidates m0 m1 sf K rs pre t ml :
  normalised sf ∈ scoring_functions -> 0 <= K ->
  findMCSmatches m0 m1 pre t ml = [] ->
  match_atoms m0 m1 sf K rs pre t ml = Return NoMatch.
Proof.
  intros Hsf HK Hnone. rewrite matchAtoms_checked by assumption.
  rewrite Hnone. reflexivity.
Qed.

Section Ordered.
(** [<] on the scores is a strict weak order. *)
Hypothesis lt_asym : forall a b, lt a b = true -> lt b a = false.
Hypothesis not_lt_trans :
  forall a b c, lt b a = false -> lt c b = false -> lt c a = false.

Lemma sorted_keys_ranked (scores : list Score) :
  ranked lt scores (sorted_keys lt scores).
Proof.
  unfold sorted_keys, sorted.
  set (decorated := (fun k => (k, scores !!! k)) <$> seq 0 (length scores)).
  assert (Hsorted : StronglySorted (in_order lt Nat.lt) (sort lt decorated)).
  { apply sort_in_order; [assumption | assumption |].
    unfold decorated. generalize (seq_StronglySorted 0 (length scores)).
    generalize (seq 0 (length scores)). intros l Hl.
    induction Hl as [| k l Hl IH Hk]; cbn; constructor; [exact IH |].
    rewrite Forall_fmap. exact Hk. }
  assert (Hkeys : Forall (fun p => snd p = scores !!! fst p) (sort lt decorated)).
  { rewrite sort_Permutation. unfold decorated. rewrite Forall_fmap.
    apply Forall_true. reflexivity. }
  intros i j a b Hij Hi Hj.
  rewrite list_lookup_fmap in Hi, Hj.
  destruct (sort lt decorated !! i) as [[a' sa] |] eqn:Hpi; [| discriminate].
  destruct (sort lt decorated !! j) as [[b' sb] |] eqn:Hpj; [| discriminate].
  cbn in Hi, Hj. injection Hi as ->. injection Hj as ->.
  rewrite Forall_forall in Hkeys.
  pose proof (Hkeys _ (list_elem_of_lookup_2 _ _ _ Hpi)) as Ha.
  pose proof (Hkeys _ (list_elem_of_lookup_2 _ _ _ Hpj)) as Hb.
  cbn in Ha, Hb. subst sa sb.
  exact (StronglySorted_lookup _ _ _ _ _ _ Hsorted Hij Hpi Hpj).
Qed.

Lemma score_rmsd_nondecreasing m0 m1 a (ms : list (list (AtomIdx * AtomIdx))) :
  nondecreasing lt (snd (score_rmsd m0 m1 ms a)).
Proof.
  unfold _score_rmsd. cbn [snd]. intros i j x y Hij Hi Hj.
  rewrite list_lookup_fmap in Hi, Hj.
  destruct (sorted_keys lt _ !! i) as [ka |] eqn:Hka; [| discriminate].
  destruct (sorted_keys lt _ !! j) as [kb |] eqn:Hkb; [| discriminate].
  cbn in Hi, Hj. injection Hi as <-. injection Hj as <-. cbn.
  exact (proj1 (sorted_keys_ranked _ i j ka kb Hij Hka Hkb)).
Qed.

Lemma nondecreasing_take (n : nat) ss :
  nondecreasing lt ss -> nondecreasing lt (take n ss).
Proof.
  intros Hss i j x y Hij Hi Hj.
  apply lookup_take_Some in Hi as [Hi _]. apply lookup_take_Some in Hj as [Hj _].
  exact (Hss i j x y Hij Hi Hj).
Qed.

(** C2. The scoring step returns the candidates and their scores in the
    order of [keys], a rearrangement of the positions of the candidates in
    which a later score is never smaller than an earlier one and candidates
    whose scores tie stay in the order the matcher gave them.  The list that
    [matchAtoms] returns for [matches > 1] is the beginning of that list, so
    its scores do not decrease either.  The scores are taken to be ordered as
    numbers are: [<] is a strict weak order on them. *)
Theorem score_rmsd_sorted_and_stable m0 m1
    (mappings : list (list (AtomIdx * AtomIdx))) (a : bool) :
  let scores := scores_of m0 m1 a mappings in
  let keys := sorted_keys lt scores in
  score_rmsd m0 m1 mappings a
    = ((fun k => mappings !!! k) <$> keys,
       (fun k => angstrom (scores !!! k)) <$> keys) /\
  length scores = length mappings /\
  keys ≡ₚ seq 0 (length mappings) /\
  ranked lt scores keys /\
  nondecreasing lt (snd (score_rmsd m0 m1 mappings a)) /\
  forall sf K rs pre t ml,
    normalised sf ∈ scoring_functions -> 1 < K ->
    findMCSmatches m0 m1 pre t ml = mappings -> mappings <> [] ->
    a = String.eqb (normalised sf) "RMSDALIGN" ->
    exists ms ss,
      match_atoms m0 m1 sf K rs pre t ml
        = Return (if rs then RankedScored ms ss else Ranked ms) /\
      ms = upto K (fst (score_rmsd m0 m1 mappings a)) /\
      ss = upto K (snd (score_rmsd m0 m1 mappings a)) /\
      nondecreasing lt ss.
Proof.
  cbv zeta. split; [reflexivity |].
  split; [apply length_scores |].
  split; [rewrite sorted_keys_Permutation, length_scores; reflexivity |].
  split; [apply sorted_keys_ranked |].
  split; [apply score_rmsd_nondecreasing |].
  intros sf K rs pre t ml Hsf HK Hm Hne ->. subst mappings.
  eexists _, _. split; [apply matchAtoms_ranked; assumption |].
  split; [reflexivity |]. split; [reflexivity |].
  apply nondecreasing_take, score_rmsd_nondecreasing.
Qed.

End Ordered.

(** C3. With at least one candidate from the matcher: for [matches=1] the
    result is one mapping, the first of the sorted candidates, not a list;
    for [matches=K] with [K > 1] and fewer than [K] candidates the result
    holds all the candidates, in sorted order: the whole list of sorted
    mappings, and with [return_scores] the whole list of their scores next
    to it.  Sorted order: the list is the candidates taken in the order of
    [keys], with their scores next to them; when [<] on the scores is a
    strict weak order, a later candidate never has the smaller score, and
    candidates whose scores tie stay in the order the matcher gave them. *)
Theorem matchAtoms_one_or_all m0 m1 sf rs pre t ml :
  normalised sf ∈ scoring_functions ->
  findMCSmatches m0 m1 pre t ml <> [] ->
  let mappings := findMCSmatches m0 m1 pre t ml in
  let is_align := String.eqb (normalised sf) "RMSDALIGN" in
  let scored := _score_rmsd align coordinates getRMSD lt m0 m1 mappings is_align in
  let scores := for_mappings align coordinates getRMSD m0 m1 is_align mappings [] in
  let keys := sorted_keys lt scores in
  (exists best rest,
     fst scored = best :: rest /\
     match_atoms m0 m1 sf 1 rs pre t ml = Return (Best best)) /\
  (forall K, 1 < K -> Z.of_nat (length mappings) < K ->
     match_atoms m0 m1 sf K rs pre t ml =
       Return (if rs then RankedScored (fst scored) (snd scored)
               else Ranked (fst scored))) /\
  fst scored ≡ₚ mappings /\
  length (fst scored) = length mappings /\
  length (snd scored) = length mappings /\
  fst scored = (fun k => mappings !!! k) <$> keys /\
  snd scored = (fun k => angstrom (scores !!! k)) <$> keys /\
  ((forall a b, lt a b = true -> lt b a = false) ->
   (forall a b c, lt b a = false -> lt c b = false -> lt c a = false) ->
   ranked lt scores keys /\ nondecreasing lt (snd scored)).
Proof.
  intros Hsf Hne. cbv zeta.
  set (mappings := findMCSmatches m0 m1 pre t ml) in *.
  set (a := String.eqb (normalised sf) "RMSDALIGN").
  destruct (length_score_rmsd m0 m1 a mappings) as [Hlen1 Hlen2].
  split; [| split; [| split; [| split; [| split; [| split; [| split]]]]]];
    auto using score_rmsd_Permutation.
  - destruct (fst (score_rmsd m0 m1 mappings a)) as [| best rest] eqn:Hsorted.
    { destruct mappings; [contradiction | discriminate]. }
    exists best, rest. split; [reflexivity |].
    rewrite matchAtoms_checked by (auto; lia). cbv zeta.
    fold mappings. fold a. rewrite Hsorted.
    destruct mappings; [contradiction | reflexivity].
  - intros K HK HN.
    rewrite matchAtoms_ranked by assumption. cbv zeta. fold mappings. fold a.
    rewrite !upto_all by lia. reflexivity.
  - intros Hasym Htrans. split.
    + apply sorted_keys_ranked; assumption.
    + apply score_rmsd_nondecreasing; assumption.
Qed.

End ScoringFacts.

(** *** The samples *)

Lemma Zltb_asym (a b : Z) : (a <? b) = true -> (b <? a) = false.
Proof. intros Hab. apply Z.ltb_lt in Hab. apply Z.ltb_ge. lia. Qed.

Lemma Zltb_not_trans (a b c : Z) :
  (b <? a) = false -> (c <? b) = false -> (c <? a) = false.
Proof. intros Hba Hcb. apply Z.ltb_ge in Hba, Hcb. apply Z.ltb_ge. lia. Qed.

(** The four sample candidates score 3, 1, 2, 1: the two that score 1 come
    first, in the order they were given. *)
Example ranking_of_the_samples :
  _score_rmsd Samples.align Samples.coordinates Samples.getRMSD Z.ltb tt tt
    Samples.candidates false
  = ([ [(0, 1)]; [(5, 5)]; [(0, 2); (1, 0)]; [(0, 0); (1, 1); (2, 2)] ]%nat,
     [ angstrom 1; angstrom 1; angstrom 2; angstrom 3 ]).
Proof. vm_compute. reflexivity. Qed.

Lemma score_rmsd_sorted_and_stable_witness :
  ranked Z.ltb
    (for_mappings Samples.align Samples.coordinates Samples.getRMSD tt tt false
       Samples.candidates [])
    (sorted_keys Z.ltb
       (for_mappings Samples.align Samples.coordinates Samples.getRMSD tt tt false
          Samples.candidates [])) /\
  nondecreasing Z.ltb
    (snd (_score_rmsd Samples.align Samples.coordinates Samples.getRMSD Z.ltb tt tt
            Samples.candidates false)).
Proof.
  pose proof (score_rmsd_sorted_and_stable Samples.align Samples.coordinates
                Samples.getRMSD Z.ltb Samples.matcher Zltb_asym Zltb_not_trans
                tt tt Samples.candidates false) as Hs.
  cbv zeta in Hs. destruct Hs as (_ & _ & _ & Hranked & Hscores & _).
  split; [exact Hranked | exact Hscores].
Defined.

Lemma matchAtoms_one_or_all_witness :
  (exists best rest,
     fst (_score_rmsd Samples.align Samples.coordinates Samples.getRMSD Z.ltb tt tt
            Samples.candidates false) = best :: rest /\
     matchAtoms Samples.align Samples.coordinates Samples.getRMSD Z.ltb
       Samples.matcher tt tt "RMSD" 1 false [] tt true = Return (Best best)) /\
  matchAtoms Samples.align Samples.coordinates Samples.getRMSD Z.ltb
    Samples.matcher tt tt "RMSD" 10 false [] tt true
  = Return (Ranked (fst (_score_rmsd Samples.align Samples.coordinates
                           Samples.getRMSD Z.ltb tt tt Samples.candidates false))) /\
  ranked Z.ltb
    (for_mappings Samples.align Samples.coordinates Samples.getRMSD tt tt false
       Samples.candidates [])
    (sorted_keys Z.ltb
       (for_mappings Samples.align Samples.coordinates Samples.getRMSD tt tt false
          Samples.candidates [])).
Proof.
  assert (Hsf : normalised "RMSD" ∈ scoring_functions)
    by (apply (bool_decide_unpack _); vm_compute; exact I).
  assert (Hne : Samples.matcher tt tt [] tt true <> []) by discriminate.
  pose proof (matchAtoms_one_or_all Samples.align Samples.coordinates
                Samples.getRMSD Z.ltb Samples.matcher tt tt "RMSD" false [] tt true
                Hsf Hne) as Hm.
  cbv zeta in Hm. destruct Hm as (Hbest & Hall & _ & _ & _ & _ & _ & Hordered).
  split; [exact Hbest |]. split.
  - apply (Hall 10); [lia | vm_compute; reflexivity].
  - exact (proj1 (Hordered Zltb_asym Zltb_not_trans)).
Defined.

Lemma matchAtoms_no_candidates_witness :
  matchAtoms Samples.align Samples.coordinates Samples.getRMSD Z.ltb
    Samples.no_matcher tt tt "RMSD align" 1 false [] tt true = Return NoMatch.
Proof.
  apply matchAtoms_no_candidates.
  - apply (bool_decide_unpack _). vm_compute. exact I.
  - lia.
  - reflexivity.
Defined.

End AlignFacts.

(** ** More about the parser, the store and the queries *)

Module ParserFacts.
Import Py Amber AmberMore AmberFacts.

(** *** What a match takes *)

Lemma star_took {R : Type} (p : ascii -> bool) (s : string)
    (k : string -> string -> option R) (r : R) :
  star p s k = Some r ->
  exists took rest, s = took +:+ rest /\ every p took = true /\ k took rest = Some r.
Proof.
  revert k. induction s as [| c s IH]; intros k; simpl.
  - intros Hk. exists EmptyString, EmptyString. auto.
  - destruct (p c) eqn:Hc.
    + destruct (star p s (fun took rest => k (String c took) rest)) as [r' |] eqn:Hstar.
      * intros [= ->]. apply IH in Hstar as (took & rest & -> & Hp & Hk).
        exists (String c took), rest. simpl. rewrite Hc, Hp. auto.
      * intros Hk. exists EmptyString, (String c s). auto.
    + intros Hk. exists EmptyString, (String c s). auto.
Qed.

Lemma run_item_took {R : Type} (it : item) (s : string)
    (k : string -> string -> option R) (r : R) :
  run_item it s k = Some r ->
  exists took rest,
    s = took +:+ rest /\ every (cls it) took = true /\
    quantity (quant it) took /\ k took rest = Some r.
Proof.
  unfold run_item. destruct (quant it) eqn:Hq.
  - destruct s as [| c s]; [discriminate |].
    destruct (cls it c) eqn:Hc; [| discriminate]. intros Hk.
    exists (String c EmptyString), s. simpl. rewrite Hc. auto.
  - destruct s as [| c s].
    + intros Hk. exists EmptyString, EmptyString. simpl. auto.
    + destruct (cls it c) eqn:Hc.
      * destruct (k (String c EmptyString) s) as [r' |] eqn:Hk.
        -- intros [= ->]. exists (String c EmptyString), s. simpl. rewrite Hc. auto.
        -- intros Hk'. exists EmptyString, (String c s). simpl. auto.
      * intros Hk. exists EmptyString, (String c s). simpl. auto.
  - assert (Hany : forall s', star (cls it) s' k = Some r ->
              exists took rest, s' = took +:+ rest /\ every (cls it) took = true /\
                True /\ k took rest = Some r).
    { intros s' Hs. apply star_took in Hs as (took & rest & Hs & Hp & Hk).
      exists took, rest. auto. }
    destruct s; apply Hany.
  - destruct s as [| c s]; [discriminate |].
    destruct (cls it c) eqn:Hc; [| discriminate]. intros Hs.
    apply star_took in Hs as (took & rest & -> & Hp & Hk).
    exists (String c took), rest. simpl. rewrite Hc, Hp. repeat split; auto. lia.
Qed.

Lemma append_assoc (a b c : string) : (a +:+ b) +:+ c = a +:+ (b +:+ c).
Proof.
  induction a as [| x a IH]; [reflexivity |].
  change (String x ((a +:+ b) +:+ c) = String x (a +:+ (b +:+ c))).
  rewrite IH. reflexivity.
Qed.

Lemma append_nil_r (a : string) : a +:+ EmptyString = a.
Proof.
  induction a as [| x a IH]; [reflexivity |].
  change (String x (a +:+ EmptyString) = String x a).
  rewrite IH. reflexivity.
Qed.

Lemma append_empty (a b : string) :
  a +:+ b = EmptyString -> a = EmptyString /\ b = EmptyString.
Proof. destruct a; [auto | discriminate]. Qed.

Lemma every_app (p : ascii -> bool) (a b : string) :
  every p (a +:+ b) = every p a && every p b.
Proof.
  induction a as [| x a IH]; [reflexivity |].
  change (p x && every p (a +:+ b) = p x && every p a && every p b).
  rewrite IH, andb_assoc. reflexivity.
Qed.

Lemma contains_app (c : ascii) (a b : string) :
  contains c (a +:+ b) = contains c a || contains c b.
Proof.
  induction a as [| x a IH]; [reflexivity |].
  change (is_char c x || contains c (a +:+ b)
          = is_char c x || contains c a || contains c b).
  rewrite IH, orb_assoc. reflexivity.
Qed.

(** A match splits the text into the pieces taken by the items, each piece
    in the class of its item and as long as the quantifier allows, and the
    rest. *)
Lemma match_items_took (p : list item) (s : string) (ts : list string) (rest : string) :
  match_items p s = Some (ts, rest) ->
  s = join ts +:+ rest /\
  Forall2 (fun it t => every (cls it) t = true /\ quantity (quant it) t) p ts.
Proof.
  revert s ts rest. induction p as [| it p IH]; intros s ts rest; simpl.
  - intros [= <- <-]. split; [reflexivity | constructor].
  - intros Hrun. apply run_item_took in Hrun as (took & rest' & -> & Hp & Hq & Hk).
    destruct (match_items p rest') as [[ts' r] |] eqn:Hm; [| discriminate].
    injection Hk as <- <-. apply IH in Hm as [-> Hall].
    split; [| constructor; auto].
    change (join (took :: ts')) with (took +:+ join ts').
    rewrite append_assoc. reflexivity.
Qed.

(** Every pair that [findall] returns is the pair of groups of a match of the
    pattern somewhere in the text. *)
Lemma findall_go_matches (p : list item) (skip : nat) (s : string) (kv : string * string) :
  kv ∈ findall_go p skip s ->
  exists before at_ ts rest,
    s = before +:+ at_ /\ match_items p at_ = Some (ts, rest) /\
    kv = (group_text 1 p ts, group_text 2 p ts).
Proof.
  revert skip. induction s as [| c s IH]; intros skip; simpl.
  - destruct skip as [| n]; simpl; [| intros Hin; inversion Hin].
    destruct (match_items p EmptyString) as [[ts rest] |] eqn:Hm;
      [| intros Hin; inversion Hin].
    intros Hin. apply list_elem_of_singleton in Hin as ->.
    exists EmptyString, EmptyString, ts, rest. auto.
  - assert (Hlater : forall n, kv ∈ findall_go p n s ->
              exists before at_ ts rest,
                String c s = before +:+ at_ /\ match_items p at_ = Some (ts, rest) /\
                kv = (group_text 1 p ts, group_text 2 p ts)).
    { intros n Hin. apply IH in Hin as (before & at_ & ts & rest & -> & Hm & Hkv).
      exists (String c before), at_, ts, rest. auto. }
    destruct skip as [| n]; [| apply Hlater].
    destruct (match_items p (String c s)) as [[ts rest] |] eqn:Hm; [| apply Hlater].
    intros Hin. apply elem_of_cons in Hin as [-> | Hin]; [| eapply Hlater; exact Hin].
    exists EmptyString, (String c s), ts, rest. auto.
Qed.

(** *** The records of the pattern *)

Lemma key_char_not_lower (c : ascii) : key_char c = true -> is_az c = false.
Proof.
  destruct c as [[|] [|] [|] [|] [|] [|] [|] [|]]; vm_compute; congruence.
Qed.

Lemma upper_fixes (s : string) :
  every (fun c => negb (is_az c)) s = true -> upper s = s.
Proof.
  induction s as [| c s IH]; simpl; [reflexivity |].
  intros Hs. apply andb_prop in Hs as [Hc Hs].
  unfold upper_char. apply negb_true_iff in Hc. rewrite Hc, IH by exact Hs. reflexivity.
Qed.

Lemma every_impl (p q : ascii -> bool) (s : string) :
  (forall c, p c = true -> q c = true) -> every p s = true -> every q s = true.
Proof.
  intros Hpq. induction s as [| c s IH]; simpl; [reflexivity |].
  intros Hs. apply andb_prop in Hs as [Hc Hs]. rewrite (Hpq _ Hc), IH by exact Hs.
  reflexivity.
Qed.

Lemma every_rev_app (p : ascii -> bool) (a b : string) :
  every p (String.rev_app a b) = every p a && every p b.
Proof.
  revert b. induction a as [| c a IH]; intros b; simpl; [reflexivity |].
  rewrite IH. simpl. rewrite andb_assoc, (andb_comm (every p a) (p c)). reflexivity.
Qed.

Lemma every_rev (p : ascii -> bool) (s : string) : every p (String.rev s) = every p s.
Proof. unfold String.rev. rewrite every_rev_app. simpl. apply andb_true_r. Qed.

Lemma every_lstrip (p : ascii -> bool) (s : string) :
  every p s = true -> every p (lstrip s) = true.
Proof.
  induction s as [| c s IH]; simpl; [reflexivity |].
  intros Hs. destruct (isspace c); [| exact Hs].
  apply andb_prop in Hs as [_ Hs]. auto.
Qed.

Lemma every_strip (p : ascii -> bool) (s : string) :
  every p s = true -> every p (strip s) = true.
Proof.
  intros Hs. unfold strip. rewrite every_rev. apply every_lstrip.
  rewrite every_rev. apply every_lstrip. exact Hs.
Qed.

(** A match of the record pattern: the key is made of key characters, the
    value of value characters with a digit among them, and an equals sign
    is in the text matched. *)
Lemma record_match (s : string) (ts : list string) (rest : string) :
  match_items record_pattern s = Some (ts, rest) ->
  every key_char (group_text 1 record_pattern ts) = true /\
  every value_char (group_text 2 record_pattern ts) = true /\
  group_text 2 record_pattern ts <> EmptyString /\
  contains "=" s = true.
Proof.
  intros Hm. apply match_items_took in Hm as [-> Hall].
  unfold record_pattern in Hall.
  repeat match goal with
         | H : Forall2 _ (_ :: _) _ |- _ =>
             apply Forall2_cons_inv_l in H as (? & ? & [? ?] & ? & ->)
         | H : Forall2 _ [] _ |- _ => apply Forall2_nil_inv_l in H as ->
         end.
  cbn [class cls quant grp] in *.
  cbn [group_text record_pattern class grp Nat.eqb join foldr].
  repeat split.
  - rewrite !every_app. cbn [every].
    repeat (apply andb_true_intro; split); try reflexivity;
      (eapply every_impl; [| eassumption]); intros c Hc; unfold key_char;
      rewrite Hc, ?orb_true_r; reflexivity.
  - rewrite !every_app. cbn [every].
    repeat (apply andb_true_intro; split); try reflexivity;
      (eapply every_impl; [| eassumption]); intros c Hc; unfold value_char;
      rewrite Hc, ?orb_true_r; reflexivity.
  - intros Hempty.
    match goal with
    | Hq : quantity OneOrMore ?t, Ht : every isdigit ?t = true |- _ =>
        apply append_empty in Hempty as [_ Hempty];
        apply append_empty in Hempty as [Hempty _];
        rewrite Hempty in Hq; cbn in Hq; lia
    end.
  - match goal with
    | Hq : quantity Once ?t, Ht : every (is_char "=") ?t = true |- _ =>
        assert (Heq : contains "=" t = true)
          by (destruct t as [| c [| c' t'']]; cbn in Hq; try discriminate;
              cbn in Ht |- *; rewrite andb_true_r in Ht; rewrite Ht; reflexivity);
        rewrite !contains_app, Heq, ?orb_true_r; reflexivity
    end.
Qed.

Lemma found_record (s key value : string) :
  (key, value) ∈ findall record_pattern s ->
  every key_char key = true /\ every value_char value = true /\
  value <> EmptyString /\ contains "=" s = true.
Proof.
  intros Hin. apply findall_go_matches in Hin
    as (before & at_ & ts & rest & -> & Hm & [= -> ->]).
  apply record_match in Hm as (Hk & Hv & Hne & Heq).
  rewrite contains_app, Heq, orb_true_r. auto.
Qed.

Lemma equals_upper (c : ascii) : is_char "=" (upper_char c) = is_char "=" c.
Proof. destruct c as [[|] [|] [|] [|] [|] [|] [|] [|]]; reflexivity. Qed.

Lemma contains_equals_upper (s : string) : contains "=" (upper s) = contains "=" s.
Proof.
  induction s as [| c s IH]; simpl; [reflexivity |].
  rewrite equals_upper, IH. reflexivity.
Qed.

Lemma no_equals_no_records (line : string) :
  contains "=" line = false -> findall record_pattern (upper line) = [].
Proof.
  intros Hno. apply elem_of_nil_inv. intros [key value] Hin.
  apply found_record in Hin as (_ & _ & _ & Heq).
  rewrite contains_equals_upper in Heq. congruence.
Qed.

(** *** The dynamics dialect as one loop over the records *)

Lemma for_records_app h (a b : list (string * string)) d :
  for_records h (a ++ b) d =
  match for_records h a d with
  | Next _ d' => for_records h b d'
  | s => s
  end.
Proof.
  revert d. induction a as [| [key value] a IH]; intros d; simpl; [reflexivity |].
  destruct (String.eqb (strip key) "NSTEP"); [| apply IH].
  destruct (same_step d (Return value)) as [[|] | e]; auto.
Qed.

Lemma for_records_Next h records d h' d' :
  for_records h records d = Next h' d' -> h' = h.
Proof.
  revert d. induction records as [| [key value] rest IH]; intros d; simpl.
  - intros [= <- <-]. reflexivity.
  - destruct (String.eqb (strip key) "NSTEP"); [| apply IH].
    destruct (same_step d (Return value)) as [[|] | e]; try discriminate. apply IH.
Qed.

Lemma process_line_dynamics p h d line :
  is_minimisation p = false ->
  process_line p h d line =
    if reads line then for_records h (findall record_pattern (upper line)) d
    else Next h d.
Proof.
  intros Hp. unfold process_line, reads. rewrite Hp.
  destruct line as [| c rest]; [reflexivity |].
  destruct (_ && _); reflexivity.
Qed.

Lemma for_lines_dynamics p h d ls :
  is_minimisation p = false ->
  for_lines p h d ls = for_records h (file_records ls) d.
Proof.
  intros Hp. revert d. induction ls as [| line ls IH]; intros d; [reflexivity |].
  cbn [for_lines file_records flat_map]. fold (file_records ls).
  rewrite for_records_app, process_line_dynamics by exact Hp.
  destruct (reads line).
  - destruct (for_records h _ d) as [h' d' | d' | e d'] eqn:Hline; try reflexivity.
    apply for_records_Next in Hline as ->. apply IH.
  - apply IH.
Qed.

(** *** Properties that every assignment keeps *)

Section Invariant.
Context (I : MultiDict -> Prop) (P : string -> string -> Prop) (p : ProtocolType).

(** [I] survives the assignment of a record that has [P], [P] holds of the
    records found in any line, and in the minimisation dialect [I] survives
    the two assignments of the line of values. *)
Hypothesis I_record : forall d key value, I d -> P key value -> I (setitem (strip key) value d).
Hypothesis P_found : forall line key value,
  (key, value) ∈ findall record_pattern (upper line) -> P key value.
Hypothesis I_values : is_minimisation p = true ->
  forall d w, I d -> I (setitem "NSTEP" w d) /\ I (setitem "ENERGY" w d).

Lemma for_records_keeps h records d :
  (forall key value, (key, value) ∈ records -> P key value) ->
  I d -> I (store_of (for_records h records d)).
Proof.
  revert d. induction records as [| [key value] rest IH]; intros d HP Hd; simpl; [exact Hd |].
  assert (Hgo : I (store_of (for_records h rest (setitem (strip key) value d)))).
  { apply IH.
    - intros k v Hin. apply HP. apply elem_of_cons. right. exact Hin.
    - apply I_record; [exact Hd |]. apply HP. apply elem_of_cons. left. reflexivity. }
  destruct (String.eqb (strip key) "NSTEP"); [| exact Hgo].
  destruct (same_step d (Return value)) as [[|] | e]; simpl; auto.
Qed.

Lemma process_line_keeps h d line : I d -> I (store_of (process_line p h d line)).
Proof.
  intros Hd.
  assert (Hrec : forall h0 d0, I d0 ->
            I (store_of (for_records h0 (findall record_pattern (upper line)) d0))).
  { intros h0 d0 Hd0. apply for_records_keeps; [apply P_found | exact Hd0]. }
  unfold process_line. destruct line as [| c rest]; [exact Hd |].
  destruct (_ && _); [| exact Hd].
  destruct (is_minimisation p) eqn:Hp; [| apply Hrec; exact Hd].
  destruct (names_columns _); [exact Hd |].
  destruct h; [| apply Hrec; exact Hd].
  destruct (same_step d _) as [[|] | e]; [exact Hd | | exact Hd].
  destruct (word _ 0) as [nstep | e]; [| exact Hd].
  destruct (I_values eq_refl d nstep Hd) as [Hn _].
  destruct (word _ 1) as [energy | e]; [| exact Hn].
  apply Hrec. apply (I_values eq_refl). exact Hn.
Qed.

Lemma for_lines_keeps h d ls : I d -> I (store_of (for_lines p h d ls)).
Proof.
  revert h d. induction ls as [| line ls IH]; intros h d Hd; simpl; [exact Hd |].
  pose proof (process_line_keeps h d line Hd) as Hline.
  destruct (process_line p h d line); simpl in *; auto.
Qed.

Lemma update_keeps nrg d : I d -> I (fst (_update_energy_dict p nrg d)).
Proof.
  intros Hd. unfold _update_energy_dict.
  pose proof (for_lines_keeps false d (lines nrg) Hd) as Hl.
  destruct (for_lines p false d (lines nrg)); exact Hl.
Qed.

End Invariant.

Lemma setitem_lookup key value d :
  setitem key value d !! key = Some (series d key ++ [value])%list.
Proof. unfold setitem, series. apply lookup_insert_eq. Qed.

Lemma setitem_lookup_ne key value d k :
  key <> k -> setitem key value d !! k = d !! k.
Proof. intros Hne. unfold setitem. apply lookup_insert_ne. exact Hne. Qed.

Lemma setitem_no_empty key value d :
  no_empty_series d -> no_empty_series (setitem key value d).
Proof.
  intros Hd k l. destruct (decide (key = k)) as [<- | Hne].
  - rewrite setitem_lookup. intros [= <-]. intros Hnil.
    apply app_eq_nil in Hnil as [_ Hnil]. discriminate.
  - rewrite setitem_lookup_ne by exact Hne. apply Hd.
Qed.

Lemma update_no_empty p nrg d :
  no_empty_series d -> no_empty_series (fst (_update_energy_dict p nrg d)).
Proof.
  apply (update_keeps no_empty_series (fun _ _ => True) p); auto.
  - intros d0 key value Hd0 _. apply setitem_no_empty. exact Hd0.
  - intros _ d0 w Hd0. split; apply setitem_no_empty; exact Hd0.
Qed.

Lemma same_step_no_empty d value :
  no_empty_series d -> exists b, same_step d (Return value) = Return b.
Proof.
  intros Hd. unfold same_step. destruct (d !! "NSTEP") as [l |] eqn:Hl; [| eauto].
  cbn [mbind result_bind]. unfold last_item.
  destruct (last l) as [x |] eqn:Hlast; cbn [mbind result_bind mret result_ret]; [eauto |].
  apply last_None in Hlast. apply Hd in Hl. contradiction.
Qed.

Lemma for_records_never_fails h records d e d' :
  no_empty_series d -> for_records h records d <> Fail e d'.
Proof.
  revert d. induction records as [| [key value] rest IH]; intros d Hd; simpl; [discriminate |].
  destruct (String.eqb (strip key) "NSTEP").
  - destruct (same_step_no_empty d value Hd) as [[|] ->]; [discriminate |].
    apply IH, setitem_no_empty, Hd.
  - apply IH, setitem_no_empty, Hd.
Qed.

(** X2. In the dynamics dialect (every protocol but minimisation) a call of
    [_update_energy_dict] on a store without an empty series never ends in
    an exception, whatever the file holds, and leaves a store without an
    empty series; so from the empty store of the constructor no sequence of
    calls raises. *)
Theorem dynamics_update_never_raises p nrg d :
  is_minimisation p = false -> no_empty_series d ->
  (forall e, snd (_update_energy_dict p nrg d) <> Exception e) /\
  no_empty_series (fst (_update_energy_dict p nrg d)).
Proof.
  intros Hp Hd. split; [| apply update_no_empty; exact Hd].
  intros e. unfold _update_energy_dict. rewrite for_lines_dynamics by exact Hp.
  pose proof (for_records_never_fails false (file_records (lines nrg)) d) as Hnever.
  destruct (for_records false (file_records (lines nrg)) d) as [h' d' | d' | e' d'];
    cbn [snd]; try discriminate.
  exfalso. eapply Hnever; eauto.
Qed.

(** *** Keys and values *)

(** X3. Every key that [_update_energy_dict] puts in the store is in upper
    case: if the keys of the store are unchanged by [.upper()] before a call,
    so are they after it, in both dialects.  It is the form in which
    [getRecord] looks a key up. *)
Theorem update_keeps_upper_keys p nrg d :
  upper_keys d -> upper_keys (fst (_update_energy_dict p nrg d)).
Proof.
  apply (update_keeps upper_keys (fun key _ => every key_char key = true) p).
  - intros d0 key value Hd0 Hkey k. destruct (decide (strip key = k)) as [<- | Hne].
    + intros _. apply upper_fixes. apply every_strip.
      revert Hkey. apply every_impl. intros c Hc.
      rewrite (key_char_not_lower c Hc). reflexivity.
    + rewrite setitem_lookup_ne by exact Hne. apply Hd0.
  - intros line key value Hin. apply found_record in Hin. tauto.
  - intros _ d0 w Hd0. split; intros k.
    + destruct (decide ("NSTEP" = k)) as [<- | Hne]; [reflexivity |].
      rewrite setitem_lookup_ne by exact Hne. apply Hd0.
    + destruct (decide ("ENERGY" = k)) as [<- | Hne]; [reflexivity |].
      rewrite setitem_lookup_ne by exact Hne. apply Hd0.
Qed.

Lemma update_keeps_upper_keys_witness :
  upper_keys (fst (_update_energy_dict MINIMISATION Samples.minimisation_log ∅)).
Proof.
  apply update_keeps_upper_keys. intros k [l Hl]. rewrite lookup_empty in Hl. discriminate.
Defined.

(** X4. In the dynamics dialect every value that a call puts in the store is
    made of dashes, digits and points only and is not empty: what the line
    has after those characters, an exponent for one, is not stored. *)
Theorem dynamics_update_keeps_plain_values p nrg d :
  is_minimisation p = false ->
  plain_values d -> plain_values (fst (_update_energy_dict p nrg d)).
Proof.
  intros Hp.
  apply (update_keeps plain_values
           (fun _ value => every value_char value = true /\ value <> EmptyString) p).
  - intros d0 key value Hd0 Hvalue k l v.
    destruct (decide (strip key = k)) as [<- | Hne].
    + rewrite setitem_lookup. intros [= <-] Hin.
      apply elem_of_app in Hin as [Hin | Hin].
      * unfold series in Hin. destruct (d0 !! strip key) as [l0 |] eqn:Hl0.
        -- eapply Hd0; eauto.
        -- inversion Hin.
      * apply list_elem_of_singleton in Hin as ->. exact Hvalue.
    + rewrite setitem_lookup_ne by exact Hne. apply Hd0.
  - intros line key value Hin. apply found_record in Hin. tauto.
  - congruence.
Qed.

Lemma dynamics_update_keeps_plain_values_witness :
  plain_values (fst (_update_energy_dict PRODUCTION Samples.frame_100 ∅)).
Proof.
  apply dynamics_update_keeps_plain_values; [reflexivity |].
  intros k l v Hl. rewrite lookup_empty in Hl. discriminate.
Defined.

(** *** What a call appends *)

Lemma series_setitem key value d k :
  series (setitem key value d) k =
  (series d k ++ if String.eqb key k then [value] else [])%list.
Proof.
  destruct (String.eqb_spec key k) as [<- | Hne].
  - unfold series at 1. rewrite setitem_lookup. reflexivity.
  - unfold series at 1 2. rewrite setitem_lookup_ne by exact Hne.
    rewrite app_nil_r. reflexivity.
Qed.

Lemma values_for_app key (a b : list (string * string)) :
  values_for key (a ++ b) = (values_for key a ++ values_for key b)%list.
Proof. unfold values_for. apply omap_app. Qed.

(** The store after the loop over the records: the values of the records
    taken, appended key by key; all the records are taken when the loop runs
    to its end. *)
Lemma for_records_taken h records d :
  exists taken rest,
    records = (taken ++ rest)%list /\
    (forall key, series (store_of (for_records h records d)) key
                 = (series d key ++ values_for key taken)%list) /\
    (forall h' d', for_records h records d = Next h' d' -> rest = []).
Proof.
  revert d. induction records as [| [key value] records IH]; intros d.
  - exists [], []. repeat split; auto. intros k. cbn. rewrite app_nil_r. reflexivity.
  - assert (Hgo : exists taken rest,
              (key, value) :: records = (taken ++ rest)%list /\
              (forall k, series (store_of (for_records h records
                                             (setitem (strip key) value d))) k
                         = (series d k ++ values_for k taken)%list) /\
              (forall h' d', for_records h records (setitem (strip key) value d)
                             = Next h' d' -> rest = [])).
    { destruct (IH (setitem (strip key) value d)) as (taken & rest & -> & Hs & Hn).
      exists ((key, value) :: taken), rest. repeat split; auto.
      intros k. rewrite Hs, series_setitem, <- app_assoc. f_equal.
      unfold values_for. cbn [omap list_omap fst snd].
      destruct (String.eqb (strip key) k); reflexivity. }
    assert (Hnone : exists taken rest,
              (key, value) :: records = (taken ++ rest)%list /\
              (forall k, series d k = (series d k ++ values_for k taken)%list) /\
              rest <> []).
    { exists [], ((key, value) :: records). repeat split; [| discriminate].
      intros k. cbn. rewrite app_nil_r. reflexivity. }
    cbn [for_records].
    destruct (String.eqb (strip key) "NSTEP"); [| exact Hgo].
    destruct (same_step d (Return value)) as [[|] | e]; [| exact Hgo |];
      destruct Hnone as (taken & rest & Heq & Hs & Hne);
      exists taken, rest; repeat split; auto; discriminate.
Qed.

(** X5. In the dynamics dialect the store after a call is the store before
    it with, appended to the series of each key, the values that the
    records of a beginning of the file have for that key, in file order;
    when the call reaches the end of the file it is all the records of the
    file. *)
Theorem dynamics_update_appends_in_file_order p nrg d :
  is_minimisation p = false ->
  exists taken rest,
    file_records (lines nrg) = (taken ++ rest)%list /\
    (forall key, series (fst (_update_energy_dict p nrg d)) key
                 = (series d key ++ values_for key taken)%list) /\
    (snd (_update_energy_dict p nrg d) = EndOfFile -> rest = []).
Proof.
  intros Hp. unfold _update_energy_dict. rewrite for_lines_dynamics by exact Hp.
  destruct (for_records_taken false (file_records (lines nrg)) d)
    as (taken & rest & Heq & Hs & Hn).
  exists taken, rest. split; [exact Heq |].
  destruct (for_records false (file_records (lines nrg)) d) as [h' d' | d' | e d'];
    cbn [fst snd store_of] in *; split; auto; try discriminate. eauto.
Qed.

Lemma dynamics_update_appends_in_file_order_witness :
  exists taken rest,
    file_records (lines Samples.frame_100) = (taken ++ rest)%list /\
    (forall key, series (fst (_update_energy_dict PRODUCTION Samples.frame_100 ∅)) key
                 = (series ∅ key ++ values_for key taken)%list) /\
    (snd (_update_energy_dict PRODUCTION Samples.frame_100 ∅) = EndOfFile -> rest = []).
Proof.
  apply (dynamics_update_appends_in_file_order PRODUCTION Samples.frame_100 ∅).
  reflexivity.
Defined.

(** *** The same frame again, and the next frame *)

Lemma for_records_no_step h records d :
  Forall (fun r => strip (fst r) <> "NSTEP") records ->
  exists d', for_records h records d = Next h d' /\
             d' !! "NSTEP" = d !! "NSTEP" /\
             forall key, series d' key = (series d key ++ values_for key records)%list.
Proof.
  intros Hno. revert d. induction Hno as [| [key value] records Hkey Hno IH]; intros d.
  - exists d. repeat split. intros k. cbn. rewrite app_nil_r. reflexivity.
  - cbn [for_records]. cbn [fst] in Hkey.
    apply String.eqb_neq in Hkey as Hkeyb. rewrite Hkeyb.
    destruct (IH (setitem (strip key) value d)) as (d' & Hd' & Hstep & Hs).
    exists d'. split; [exact Hd' |]. split.
    + rewrite Hstep. apply setitem_lookup_ne. exact Hkey.
    + intros k. rewrite Hs, series_setitem, <- app_assoc. f_equal.
      unfold values_for. cbn [omap list_omap fst snd].
      destruct (String.eqb (strip key) k); reflexivity.
Qed.

Lemma same_step_last d l v :
  d !! "NSTEP" = Some (l ++ [v])%list -> same_step d (Return v) = Return true.
Proof.
  intros Hl. unfold same_step, last_item. rewrite Hl. cbn [mbind result_bind].
  rewrite last_snoc. cbn [mbind result_bind mret result_ret].
  rewrite String.eqb_refl. reflexivity.
Qed.

(** The one call on a file that holds one frame. *)
Lemma one_frame_update p nrg v d :
  is_minimisation p = false -> one_frame nrg v ->
  match same_step d (Return v) with
  | Return true => _update_energy_dict p nrg d = (d, EarlyReturn)
  | Return false =>
      snd (_update_energy_dict p nrg d) = EndOfFile /\
      fst (_update_energy_dict p nrg d) !! "NSTEP" = Some (series d "NSTEP" ++ [v])%list /\
      forall key, series (fst (_update_energy_dict p nrg d)) key
                  = (series d key ++ values_for key (file_records (lines nrg)))%list
  | Raise e => _update_energy_dict p nrg d = (d, Exception e)
  end.
Proof.
  intros Hp (key & rest & Hrec & Hkey & Hrest).
  unfold _update_energy_dict. rewrite for_lines_dynamics by exact Hp. rewrite Hrec.
  cbn [for_records]. rewrite Hkey. cbn [String.eqb Ascii.eqb Bool.eqb andb].
  destruct (same_step d (Return v)) as [[|] | e]; [reflexivity | | reflexivity].
  destruct (for_records_no_step false rest (setitem "NSTEP" v d) Hrest)
    as (d' & -> & Hstep & Hs).
  cbn [fst snd]. split; [reflexivity |]. split.
  - rewrite Hstep. apply setitem_lookup.
  - intros k. rewrite Hs, series_setitem, <- app_assoc. f_equal.
    unfold values_for. cbn [omap list_omap fst snd]. rewrite Hkey.
    destruct (String.eqb "NSTEP" k); reflexivity.
Qed.

(** X6. Dynamics dialect, a file that holds one frame (its first record is
    NSTEP and no other record is): a second call on the unchanged file
    leaves the store as the first call left it, whatever the store was
    before; and unless the first call raised, the second returns at the
    first record. *)
Theorem same_frame_twice_counts_once p nrg v d :
  is_minimisation p = false -> one_frame nrg v ->
  let once := _update_energy_dict p nrg d in
  let twice := _update_energy_dict p nrg (fst once) in
  fst twice = fst once /\
  ((forall e, snd once <> Exception e) -> snd twice = EarlyReturn).
Proof.
  intros Hp Hframe. cbv zeta.
  pose proof (one_frame_update p nrg v d Hp Hframe) as Hfirst.
  destruct (same_step d (Return v)) as [[|] | e] eqn:Hsame.
  - rewrite Hfirst. cbn [fst].
    pose proof (one_frame_update p nrg v d Hp Hframe) as Hsecond.
    rewrite Hsame in Hsecond. rewrite Hsecond. auto.
  - destruct Hfirst as (Hend & Hstep & _).
    pose proof (one_frame_update p nrg v (fst (_update_energy_dict p nrg d)) Hp Hframe)
      as Hsecond.
    rewrite (same_step_last _ _ _ Hstep) in Hsecond. rewrite Hsecond. auto.
  - rewrite Hfirst. cbn [fst snd].
    pose proof (one_frame_update p nrg v d Hp Hframe) as Hsecond.
    rewrite Hsame in Hsecond. rewrite Hsecond. cbn [fst snd].
    split; [reflexivity |]. intros Hno. exfalso. apply (Hno e). reflexivity.
Qed.

Lemma frame_100_one_frame : one_frame Samples.frame_100 "100".
Proof.
  exists "NSTEP", [("   TIME(PS)", "0.200"); ("  ETOT", "-1234.5")].
  split; [vm_compute; reflexivity |]. split; [reflexivity |].
  repeat constructor; vm_compute; discriminate.
Qed.

Lemma same_frame_twice_counts_once_witness :
  fst (_update_energy_dict PRODUCTION Samples.frame_100
         (fst (_update_energy_dict PRODUCTION Samples.frame_100 Samples.store_100)))
  = fst (_update_energy_dict PRODUCTION Samples.frame_100 Samples.store_100).
Proof.
  apply (same_frame_twice_counts_once PRODUCTION Samples.frame_100 "100" Samples.store_100).
  - reflexivity.
  - exact frame_100_one_frame.
Defined.

(** X7. Dynamics dialect, a sequence of states of the file, each holding one
    frame, no step count repeating the one before it (nor, for the first,
    the last one stored): after one call for each state, every key's series
    is the series before with the values of that key's records appended,
    file after file and in file order; the series of NSTEP grows by the step
    counts in arrival order. *)
Theorem distinct_frames_all_appended p files steps d :
  is_minimisation p = false -> no_empty_series d ->
  Forall2 one_frame files steps ->
  no_repeat (last (series d "NSTEP")) steps ->
  (forall key, series (updates p files d) key
     = (series d key
        ++ flat_map (fun nrg => values_for key (file_records (lines nrg))) files)%list) /\
  series (updates p files d) "NSTEP" = (series d "NSTEP" ++ steps)%list.
Proof.
  intros Hp Hd Hframes. revert d Hd.
  induction Hframes as [| nrg v files steps Hframe Hframes IH]; intros d Hd Hsteps.
  - split; [intros key |]; cbn; rewrite app_nil_r; reflexivity.
  - cbn [no_repeat] in Hsteps. destruct Hsteps as [Hnew Hsteps].
    cbn [updates foldl]. fold (updates p files (fst (_update_energy_dict p nrg d))).
    pose proof (one_frame_update p nrg v d Hp Hframe) as Hfirst.
    assert (Hsame : same_step d (Return v) = Return false).
    { unfold same_step, last_item. unfold series in Hnew.
      destruct (d !! "NSTEP") as [l |] eqn:Hl; [| reflexivity].
      cbn [mbind result_bind from_option id] in *.
      destruct (last l) as [x |] eqn:Hlast.
      - cbn [mbind result_bind mret result_ret].
        destruct (String.eqb_spec v x) as [-> | Hne]; [contradiction | reflexivity].
      - apply last_None in Hlast. apply Hd in Hl. contradiction. }
    rewrite Hsame in Hfirst. destruct Hfirst as (_ & Hstep & Hs).
    assert (Hlast : last (series (fst (_update_energy_dict p nrg d)) "NSTEP") = Some v).
    { unfold series at 1. rewrite Hstep. cbn [from_option id]. apply last_snoc. }
    destruct (IH (fst (_update_energy_dict p nrg d))) as [Hall Hnstep].
    { apply update_no_empty. exact Hd. }
    { rewrite Hlast. exact Hsteps. }
    split.
    + intros key. rewrite Hall, Hs. cbn [flat_map]. rewrite <- app_assoc. reflexivity.
    + rewrite Hnstep. unfold series at 1. rewrite Hstep. cbn [from_option id].
      rewrite <- app_assoc. reflexivity.
Qed.

(** *** Lines that hold no record *)

(** X8. Dynamics dialect: when every line of the file either starts with a
    bar or has no equals sign, the call leaves the store as it was and ends
    at the end of the file: nothing is taken for a record in such a line. *)
Theorem dynamics_ignores_lines_without_records p nrg d :
  is_minimisation p = false ->
  Forall (fun line => reads line = false \/ contains "=" line = false) (lines nrg) ->
  _update_energy_dict p nrg d = (d, EndOfFile).
Proof.
  intros Hp Hlines. unfold _update_energy_dict. rewrite for_lines_dynamics by exact Hp.
  assert (Hnone : file_records (lines nrg) = []).
  { induction Hlines as [| line ls Hline Hls IH]; [reflexivity |].
    cbn [file_records flat_map]. fold (file_records ls). rewrite IH, app_nil_r.
    destruct (reads line) eqn:Hr; [| reflexivity].
    destruct Hline as [Hline | Hline]; [discriminate |].
    apply no_equals_no_records. exact Hline. }
  rewrite Hnone. reflexivity.
Qed.

(** *** A line of values cut short *)

(** X9. Minimisation dialect: after a header line, a line to be read that is
    no header and has no word, or one word that does not repeat the step
    count stored last, ends the call in an [IndexError].  The word, when
    there is one, has by then been appended to the series of NSTEP and
    nothing to the series of ENERGY, which leaves the two series with
    different lengths. *)
Theorem minimisation_short_values_line_raises nrg d pre line post d1 :
  lines nrg = (pre ++ line :: post)%list ->
  for_lines MINIMISATION false d pre = Next true d1 ->
  no_empty_series d1 ->
  reads line = true -> names_columns line = false ->
  (split (upper line) = [] \/
   exists w, split (upper line) = [w] /\ last (series d1 "NSTEP") <> Some w) ->
  let after := _update_energy_dict MINIMISATION nrg d in
  snd after = Exception IndexError /\
  series (fst after) "NSTEP" = (series d1 "NSTEP" ++ split (upper line))%list /\
  series (fst after) "ENERGY" = series d1 "ENERGY".
Proof.
  intros Hlines Hpre Hd1 Hreads Hcol Hwords. cbv zeta.
  assert (Hline : process_line MINIMISATION true d1 line
                  = Fail IndexError
                      (match split (upper line) with
                       | [w] => setitem "NSTEP" w d1
                       | _ => d1
                       end)).
  { unfold process_line. destruct line as [| c rest]; [discriminate |].
    unfold reads in Hreads. rewrite Hreads, Hcol. cbn [is_minimisation].
    destruct Hwords as [Hnone | (w & Hone & Hnew)].
    - rewrite Hnone. unfold same_step, word. cbn [lookup list_lookup].
      destruct (d1 !! "NSTEP"); reflexivity.
    - rewrite Hone. unfold word. cbn [lookup list_lookup].
      assert (Hsame : same_step d1 (Return w) = Return false).
      { unfold same_step, last_item. unfold series in Hnew.
        destruct (d1 !! "NSTEP") as [l |] eqn:Hl; [| reflexivity].
        cbn [mbind result_bind from_option id] in *.
        destruct (last l) as [x |] eqn:Hlast.
        - cbn [mbind result_bind mret result_ret].
          destruct (String.eqb_spec w x) as [-> | Hne]; [contradiction | reflexivity].
        - apply last_None in Hlast. apply Hd1 in Hl. contradiction. }
      rewrite Hsame. reflexivity. }
  unfold _update_energy_dict. rewrite Hlines, for_lines_app, Hpre.
  cbn [for_lines]. rewrite Hline. cbn [fst snd]. split; [reflexivity |].
  destruct Hwords as [Hnone | (w & Hone & _)].
  - rewrite Hnone, app_nil_r. auto.
  - rewrite Hone. rewrite !series_setitem. cbn. rewrite app_nil_r. auto.
Qed.


(** *** The store only grows *)

(** X1. A call of [_update_energy_dict] only appends, however it ends: no
    key is removed from the store, and the series of each key before the
    call is the beginning of its series after the call. *)
Theorem update_only_appends p nrg d key :
  series d key `prefix_of` series (fst (_update_energy_dict p nrg d)) key /\
  (is_Some (d !! key) -> is_Some (fst (_update_energy_dict p nrg d) !! key)).
Proof.
  pose proof (extends_update p nrg d) as Hext. unfold series. split.
  - destruct (d !! key) as [l |] eqn:Hl; [| apply prefix_nil].
    destruct (Hext key l Hl) as [l' ->]. cbn. apply prefix_app_r. reflexivity.
  - intros [l Hl]. destruct (Hext key l Hl) as [l' ->]. eauto.
Qed.

Lemma dynamics_update_never_raises_witness :
  (forall e, snd (_update_energy_dict PRODUCTION Samples.frame_100 ∅) <> Exception e) /\
  no_empty_series (fst (_update_energy_dict PRODUCTION Samples.frame_100 ∅)).
Proof.
  apply (dynamics_update_never_raises PRODUCTION Samples.frame_100 ∅).
  - reflexivity.
  - intros k l Hl. rewrite lookup_empty in Hl. discriminate.
Defined.

Lemma frame_200_one_frame : one_frame MoreSamples.frame_200 "200".
Proof.
  exists "NSTEP", [("   TIME(PS)", "0.400"); ("  ETOT", "-1200.0")].
  split; [vm_compute; reflexivity |]. split; [reflexivity |].
  repeat constructor; vm_compute; discriminate.
Qed.

Lemma distinct_frames_all_appended_witness :
  series (updates PRODUCTION [Samples.frame_100; MoreSamples.frame_200] ∅) "NSTEP"
  = (series ∅ "NSTEP" ++ ["100"; "200"])%list.
Proof.
  apply (distinct_frames_all_appended PRODUCTION
           [Samples.frame_100; MoreSamples.frame_200] ["100"; "200"] ∅).
  - reflexivity.
  - intros k l Hl. rewrite lookup_empty in Hl. discriminate.
  - repeat constructor; [exact frame_100_one_frame | exact frame_200_one_frame].
  - cbn. repeat split; discriminate.
Defined.

Lemma dynamics_ignores_lines_without_records_witness :
  _update_energy_dict PRODUCTION MoreSamples.banner Samples.store_100
  = (Samples.store_100, EndOfFile).
Proof.
  apply dynamics_ignores_lines_without_records; [reflexivity |].
  let ls := eval vm_compute in (lines MoreSamples.banner) in
  change (lines MoreSamples.banner) with ls.
  repeat (apply List.Forall_cons;
          [first [left; vm_compute; reflexivity | right; vm_compute; reflexivity] |]).
  apply List.Forall_nil.
Defined.

Lemma minimisation_short_values_line_raises_witness :
  snd (_update_energy_dict MINIMISATION
         (MoreSamples.header_line +:+ MoreSamples.cut_line) ∅) = Exception IndexError /\
  series (fst (_update_energy_dict MINIMISATION
                 (MoreSamples.header_line +:+ MoreSamples.cut_line) ∅)) "NSTEP"
    = (series ∅ "NSTEP" ++ split (upper MoreSamples.cut_line))%list /\
  series (fst (_update_energy_dict MINIMISATION
                 (MoreSamples.header_line +:+ MoreSamples.cut_line) ∅)) "ENERGY"
    = series ∅ "ENERGY".
Proof.
  apply (minimisation_short_values_line_raises
           (MoreSamples.header_line +:+ MoreSamples.cut_line) ∅
           [MoreSamples.header_line] MoreSamples.cut_line [] ∅).
  - vm_compute. reflexivity.
  - vm_compute. reflexivity.
  - intros k l Hl. rewrite lookup_empty in Hl. discriminate.
  - reflexivity.
  - reflexivity.
  - right. exists "100". split; [vm_compute; reflexivity | discriminate].
Defined.

End ParserFacts.

(** ** More about the queries and the watcher *)

Module QueryFacts.
Import Py Amber AmberMore AmberFacts ParserFacts.

Ltac run := cbn [mbind result_bind mret result_ret].

Lemma comprehension_Return {A B : Type} (g : A -> result B) (l : list A) (ys : list B) :
  comprehension g l = Return ys <-> Forall2 (fun x y => g x = Return y) l ys.
Proof.
  revert ys. induction l as [| x l IH]; intros ys; simpl.
  - split.
    + intros [= <-]. constructor.
    + intros Hall. apply Forall2_nil_inv_l in Hall as ->. reflexivity.
  - split.
    + destruct (g x) as [y | e] eqn:Hx; run; [| discriminate].
      destruct (comprehension g l) as [ys' | e] eqn:Hl; run; [| discriminate].
      intros [= <-]. constructor; [exact Hx | apply IH; reflexivity].
    + intros Hall. apply Forall2_cons_inv_l in Hall as (y & ys' & Hx & Hall & ->).
      rewrite Hx. run. apply IH in Hall. rewrite Hall. reflexivity.
Qed.

Lemma comprehension_raises {A B : Type} (g : A -> result B) (l : list A) (e : exn) :
  comprehension g l = Raise e -> exists x, x ∈ l /\ g x = Raise e.
Proof.
  induction l as [| x l IH]; simpl; [discriminate |].
  destruct (g x) as [y | e'] eqn:Hx; run.
  - destruct (comprehension g l) as [ys | e'] eqn:Hl; run; [discriminate |].
    intros [= ->]. destruct (IH eq_refl) as (x' & Hin & Hx').
    exists x'. split; [apply elem_of_cons; right; exact Hin | exact Hx'].
  - intros [= ->]. exists x. split; [apply elem_of_cons; left; reflexivity | exact Hx].
Qed.

Lemma size_nonempty (d : MultiDict) k l : d !! k = Some l -> (size d =? 0)%nat = false.
Proof.
  intros Hk. apply Nat.eqb_neq. intros Hsize.
  apply map_size_empty_iff in Hsize. subst d. rewrite lookup_empty in Hk. discriminate.
Qed.

(** What a query returns for a key that is in the store. *)
Lemma query_present d key l :
  d !! text key = Some l ->
  _get_stdout_record d key (Flag true) =
    (if py_is key (lit "NSTEP")
     then xs ← comprehension int_of_str l; Return (VInts xs)
     else xs ← comprehension float_of_str l; Return (VFloats xs)) /\
  forall flag, flag = Flag false \/ flag = NotBool ->
    _get_stdout_record d key flag =
      (if py_is key (lit "NSTEP")
       then x ← last_item l; z ← int_of_str x; Return (VInt z)
       else x ← last_item l; f ← float_of_str x; Return (VFloat f)).
Proof.
  intros Hk. unfold _get_stdout_record, getitem.
  rewrite (size_nonempty d _ _ Hk), Hk. run.
  assert (Hint : forall x e, int_of_str x = Raise e -> e <> KeyError).
  { intros x e Hx. rewrite (int_of_str_raises _ _ Hx). discriminate. }
  assert (Hfloat : forall x e, float_of_str x = Raise e -> e <> KeyError).
  { intros x e Hx. rewrite (float_of_str_raises _ _ Hx). discriminate. }
  split.
  - destruct (py_is key (lit "NSTEP")).
    + destruct (comprehension int_of_str l) as [xs | e] eqn:Hl; run; [reflexivity |].
      apply comprehension_raises in Hl as (x & _ & Hx). apply Hint in Hx.
      destruct e; try reflexivity. contradiction.
    + destruct (comprehension float_of_str l) as [xs | e] eqn:Hl; run; [reflexivity |].
      apply comprehension_raises in Hl as (x & _ & Hx). apply Hfloat in Hx.
      destruct e; try reflexivity. contradiction.
  - intros flag [-> | ->]; destruct (py_is key (lit "NSTEP")); unfold last_item;
      destruct (last l) as [x |]; run; try reflexivity.
    + destruct (int_of_str x) as [z | e] eqn:Hx; run; [reflexivity |].
      apply Hint in Hx. destruct e; try reflexivity. contradiction.
    + destruct (float_of_str x) as [z | e] eqn:Hx; run; [reflexivity |].
      apply Hfloat in Hx. destruct e; try reflexivity. contradiction.
    + destruct (int_of_str x) as [z | e] eqn:Hx; run; [reflexivity |].
      apply Hint in Hx. destruct e; try reflexivity. contradiction.
    + destruct (float_of_str x) as [z | e] eqn:Hx; run; [reflexivity |].
      apply Hfloat in Hx. destruct e; try reflexivity. contradiction.
Qed.

(** X10. A query returns [None] exactly when the store is empty or the key
    is not in it, whatever the flag: for a key that is in the store the
    result is never [None]. *)
Theorem query_is_None_iff_absent d key flag :
  _get_stdout_record d key flag = Return VNone <-> d = ∅ \/ d !! text key = None.
Proof.
  split.
  - intros Hnone. destruct (d !! text key) as [l |] eqn:Hk; [| auto].
    exfalso. destruct (query_present d key l Hk) as [Hseries Hlatest].
    destruct flag as [[|] |].
    + rewrite Hseries in Hnone. destruct (py_is key (lit "NSTEP")).
      * destruct (comprehension int_of_str l); discriminate.
      * destruct (comprehension float_of_str l); discriminate.
    + rewrite (Hlatest (Flag false)) in Hnone by auto. revert Hnone.
      destruct (py_is key (lit "NSTEP")); destruct (last_item l) as [x |]; run;
        try discriminate.
      * destruct (int_of_str x); discriminate.
      * destruct (float_of_str x); discriminate.
    + rewrite (Hlatest NotBool) in Hnone by auto. revert Hnone.
      destruct (py_is key (lit "NSTEP")); destruct (last_item l) as [x |]; run;
        try discriminate.
      * destruct (int_of_str x); discriminate.
      * destruct (float_of_str x); discriminate.
  - intros [-> | Hk]; [reflexivity | apply query_unseen_key; exact Hk].
Qed.

Lemma query_witness_key : Samples.store_100 !! text (computed "ETOT") = Some ["-1234.5"].
Proof. vm_compute. reflexivity. Qed.

(** X11. The time-series query of a key that is in the store, the key not
    being the literal NSTEP: it returns a list exactly when every stored
    value converts to a float, and the list then has the conversion of each
    stored value, in order; it raises exactly when some stored value does
    not convert, however old that value is. *)
Theorem time_series_converts_every_value d key l :
  d !! text key = Some l -> py_is key (lit "NSTEP") = false ->
  (forall xs, _get_stdout_record d key (Flag true) = Return (VFloats xs)
              <-> Forall2 (fun s x => float_of_str s = Return x) l xs) /\
  ((exists e, _get_stdout_record d key (Flag true) = Raise e)
   <-> exists s e, s ∈ l /\ float_of_str s = Raise e).
Proof.
  intros Hk His. destruct (query_present d key l Hk) as [-> _]. rewrite His.
  split.
  - intros xs. rewrite <- comprehension_Return.
    destruct (comprehension float_of_str l) as [ys | e]; run; split;
      intros Heq; try discriminate; injection Heq as <-; reflexivity.
  - destruct (comprehension float_of_str l) as [ys | e] eqn:Hl; run; split.
    + intros [e He]. discriminate.
    + intros (s & e & Hin & Hs). exfalso.
      apply comprehension_Return in Hl.
      apply list_elem_of_lookup in Hin as [i Hi].
      destruct (Forall2_lookup_l _ _ _ _ _ Hl Hi) as (y & _ & Hy). congruence.
    + intros _. apply comprehension_raises in Hl as (s & Hin & Hs). eauto.
    + intros _. eauto.
Qed.

Lemma time_series_converts_every_value_witness :
  exists x,
    float_of_str "-1234.5" = Return x /\
    _get_stdout_record Samples.store_100 (computed "ETOT") (Flag true)
    = Return (VFloats [x]).
Proof.
  destruct (float_of_str "-1234.5") as [x | e] eqn:Hx; [| vm_compute in Hx; discriminate Hx].
  exists x. split; [reflexivity |].
  apply (time_series_converts_every_value Samples.store_100 (computed "ETOT") ["-1234.5"]).
  - exact query_witness_key.
  - reflexivity.
  - constructor; [exact Hx | constructor].
Defined.

Lemma series_lookup (d : MultiDict) k l : series d k = l -> l <> [] -> d !! k = Some l.
Proof.
  unfold series. destruct (d !! k) as [l' |]; cbn [from_option id]; congruence.
Qed.

(** X12. Dynamics dialect, a call of [getRecord] whose update reaches the
    end of the file: when the file has a record for the key asked for (the
    name given, stripped and in upper case), the value returned is the float
    of the last such record of the file; it raises [ValueError] when that
    value does not convert. *)
Theorem getRecord_returns_last_value_of_file record nrg a vs v :
  is_minimisation (protocol a) = false ->
  snd (_update_energy_dict (protocol a) nrg (stdout_dict a)) = EndOfFile ->
  values_for (upper (strip record)) (file_records (lines nrg)) = (vs ++ [v])%list ->
  snd (getRecord record nrg (Flag false) a)
  = (f ← float_of_str v; Return (VFloat f)).
Proof.
  intros Hp Hend Hvalues.
  assert (Hupdate : exists taken rest,
            file_records (lines nrg) = (taken ++ rest)%list /\
            (forall key,
               series (fst (_update_energy_dict (protocol a) nrg (stdout_dict a))) key
               = (series (stdout_dict a) key ++ values_for key taken)%list) /\
            (snd (_update_energy_dict (protocol a) nrg (stdout_dict a)) = EndOfFile ->
             rest = [])).
  { unfold _update_energy_dict. rewrite for_lines_dynamics by exact Hp.
    destruct (for_records_taken false (file_records (lines nrg)) (stdout_dict a))
      as (taken & rest & Heq & Hs & Hn).
    exists taken, rest. split; [exact Heq |].
    destruct (for_records false (file_records (lines nrg)) (stdout_dict a))
      as [h' d' | d' | e d']; cbn [fst snd store_of] in *; split; auto; try discriminate.
    eauto. }
  destruct Hupdate as (taken & rest & Hrec & Hseries & Hall).
  rewrite (Hall Hend), app_nil_r in Hrec. subst taken.
  specialize (Hseries (upper (strip record))). rewrite Hvalues, app_assoc in Hseries.
  apply series_lookup in Hseries;
    [| intros Hnil; apply app_eq_nil in Hnil as [_ Hnil]; discriminate].
  unfold getRecord, getter, update.
  destruct (_update_energy_dict (protocol a) nrg (stdout_dict a)) as [d' e].
  cbn [fst snd] in *. subst e. cbn [outcome stdout_dict with_dict]. run.
  destruct (query_present d' (computed (upper (strip record))) _ Hseries) as [_ Hlatest].
  rewrite (Hlatest (Flag false)) by auto.
  rewrite computed_key_is_not_literal. unfold last_item. rewrite last_snoc. run.
  reflexivity.
Qed.

Lemma getRecord_returns_last_value_of_file_witness :
  snd (getRecord " etot " Samples.frame_100 (Flag false) (fresh PRODUCTION))
  = (f ← float_of_str "-1234.5"; Return (VFloat f)).
Proof.
  apply (getRecord_returns_last_value_of_file " etot " Samples.frame_100
           (fresh PRODUCTION) [] "-1234.5").
  - reflexivity.
  - vm_compute. reflexivity.
  - vm_compute. reflexivity.
Defined.

(** *** Sequences of events *)

(** X13. Once the flag is set, no sequence of file events, of any types and
    with any contents of the file, unsets it, changes the protocol, or
    removes or alters a value of the store: every series of the store
    before is the beginning of the series of that key after. *)
Theorem watching_events_only_append evs a :
  is_watching a = true ->
  is_watching (events evs a) = true /\
  protocol (events evs a) = protocol a /\
  extends (stdout_dict a) (stdout_dict (events evs a)).
Proof.
  revert a. induction evs as [| [ev nrg] evs IH]; intros a Hw.
  - repeat split; [exact Hw | apply extends_refl].
  - cbn [events foldl fst snd]. fold (events evs (fst (on_any_event ev nrg a))).
    assert (Hstep : is_watching (fst (on_any_event ev nrg a)) = true /\
                    protocol (fst (on_any_event ev nrg a)) = protocol a /\
                    extends (stdout_dict a) (stdout_dict (fst (on_any_event ev nrg a)))).
    { destruct (String.eqb_spec ev "modified") as [-> | Hne].
      - pose proof (on_modified nrg a) as Hm. cbv zeta in Hm. rewrite Hw in Hm.
        cbn [negb] in Hm. rewrite Hm. cbn [fst is_watching protocol stdout_dict].
        repeat split. apply extends_update.
      - unfold on_any_event. apply String.eqb_neq in Hne. rewrite Hne. cbn [fst].
        repeat split; [exact Hw | apply extends_refl]. }
    destruct Hstep as (Hw1 & Hp1 & He1).
    destruct (IH _ Hw1) as (Hw2 & Hp2 & He2).
    repeat split; [exact Hw2 | congruence | eapply extends_trans; eassumption].
Qed.

Lemma watching_events_only_append_witness :
  extends (stdout_dict Samples.stale)
          (stdout_dict (events [("created", ""); ("modified", Samples.frame_100)]
                               Samples.stale)).
Proof.
  apply (watching_events_only_append
           [("created", ""); ("modified", Samples.frame_100)] Samples.stale).
  reflexivity.
Defined.

End QueryFacts.

(** ** A frame that repeats the step count stored last *)

Module RepeatFacts.
Import Py Amber AmberMore AmberFacts ParserFacts QueryFacts.

Ltac run := cbn [mbind result_bind mret result_ret].

(** The step-count test answers yes when the candidate is the last value
    stored for NSTEP. *)
Lemma same_step_repeat d l v :
  d !! "NSTEP" = Some l -> last l = Some v -> same_step d (Return v) = Return true.
Proof.
  intros Hl Hlast. unfold same_step. rewrite Hl. run.
  unfold last_item. rewrite Hlast. run. rewrite String.eqb_refl. reflexivity.
Qed.

(** It answers no when the candidate differs from it, or nothing is stored. *)
Lemma same_step_new d v :
  no_empty_series d -> last (series d "NSTEP") <> Some v ->
  same_step d (Return v) = Return false.
Proof.
  intros Hne Hlast. unfold same_step, series in *.
  destruct (d !! "NSTEP") as [l |] eqn:Hl; [| reflexivity].
  cbn [from_option id] in Hlast. run. unfold last_item.
  destruct (last l) as [x |] eqn:Hx.
  - run. destruct (String.eqb_spec v x) as [-> | _]; [contradiction | reflexivity].
  - apply last_None in Hx. subst l. destruct (Hne _ _ Hl eq_refl).
Qed.

(** A line that is read goes to the record loop in the dynamics dialect, and
    in the minimisation dialect when no header is pending and the line is
    not one. *)
Lemma process_line_records p h d line :
  reads line = true ->
  is_minimisation p = false \/ (h = false /\ names_columns line = false) ->
  process_line p h d line = for_records h (findall record_pattern (upper line)) d.
Proof.
  intros Hreads Hcase. destruct line as [| c rest]; [discriminate Hreads |].
  unfold process_line.
  change ((0 <? String.length (String c rest))%nat
          && negb (py_is (computed (String c EmptyString)) (lit "|")))
    with (reads (String c rest)).
  rewrite Hreads. destruct (is_minimisation p) eqn:Hp; [| reflexivity].
  destruct Hcase as [Hcase | [-> Hcol]]; [discriminate Hcase |].
  rewrite Hcol. reflexivity.
Qed.

(** The line of values after a header whose first word is the step count
    stored last. *)
Lemma process_line_values_repeat d line l v ws :
  reads line = true -> names_columns line = false ->
  split (upper line) = v :: ws ->
  d !! "NSTEP" = Some l -> last l = Some v ->
  process_line MINIMISATION true d line = Stop d.
Proof.
  intros Hreads Hcol Hsplit Hl Hlast.
  destruct line as [| c rest]; [discriminate Hreads |].
  apply header_repeat; [| exact Hcol |].
  - unfold reads in Hreads. apply andb_true_iff in Hreads as [_ Hbar].
    apply negb_true_iff in Hbar. exact Hbar.
  - rewrite Hsplit. cbn [word lookup list_lookup].
    exact (same_step_repeat d l v Hl Hlast).
Qed.

Lemma update_at_line p nrg d pre line post h1 d1 :
  lines nrg = (pre ++ line :: post)%list ->
  for_lines p false d pre = Next h1 d1 ->
  forall d2, process_line p h1 d1 line = Stop d2 ->
  _update_energy_dict p nrg d = (d2, EarlyReturn).
Proof.
  intros Hlines Hpre d2 Hline. unfold _update_energy_dict.
  rewrite Hlines, for_lines_app, Hpre. cbn [for_lines]. rewrite Hline. reflexivity.
Qed.

Lemma last_series (d : MultiDict) v :
  last (series d "NSTEP") = Some v ->
  exists l, d !! "NSTEP" = Some l /\ last l = Some v.
Proof.
  unfold series. destruct (d !! "NSTEP") as [l |]; cbn [from_option id]; [eauto |].
  discriminate.
Qed.

(** The line of values after a header, with a step count that is new: the
    two values are stored and the line goes to the record loop. *)
Lemma process_line_values_new d line w0 w1 ws :
  reads line = true -> names_columns line = false ->
  split (upper line) = w0 :: w1 :: ws ->
  no_empty_series d -> last (series d "NSTEP") <> Some w0 ->
  process_line MINIMISATION true d line
  = for_records false (findall record_pattern (upper line))
      (setitem "ENERGY" w1 (setitem "NSTEP" w0 d)).
Proof.
  intros Hreads Hcol Hsplit Hne Hnew.
  destruct line as [| c rest]; [discriminate Hreads |].
  unfold process_line.
  change ((0 <? String.length (String c rest))%nat
          && negb (py_is (computed (String c EmptyString)) (lit "|")))
    with (reads (String c rest)).
  rewrite Hreads. cbn [is_minimisation]. rewrite Hcol, Hsplit.
  cbn [word lookup list_lookup]. rewrite (same_step_new d w0 Hne Hnew). reflexivity.
Qed.

(** C4. The call has come to a line that is read, with the store [d1].
    First test, minimisation dialect, the line of values after a header: when
    the first word of the line is the last value that [d1] holds for NSTEP,
    the call returns there, without an exception, and the store is [d1],
    unchanged.  Second test, the record loop, which the line enters with the
    store [d0]: [d1] itself in the dynamics dialect and in the minimisation
    dialect when no header is pending, [d1] with the two values of the line
    in the minimisation dialect after a header.  When the first record of
    the line whose key is NSTEP has for value the last one that [d0] holds
    for NSTEP, the call returns there, without an exception; the store is
    [d0] with the records of the line before that one, and [d0] itself when
    the step count is the first record of the line.  In all cases nothing of
    the rest of the line or of the lines after it is appended. *)
Theorem no_new_frame_ends_the_update p nrg d pre line post h1 d1 :
  lines nrg = (pre ++ line :: post)%list ->
  for_lines p false d pre = Next h1 d1 ->
  reads line = true ->
  (forall v ws,
     is_minimisation p = true -> h1 = true -> names_columns line = false ->
     split (upper line) = v :: ws ->
     last (series d1 "NSTEP") = Some v ->
     _update_energy_dict p nrg d = (d1, EarlyReturn)) /\
  (forall d0 before key v after,
     ((is_minimisation p = false \/ (h1 = false /\ names_columns line = false)) /\
      d0 = d1) \/
     (is_minimisation p = true /\ h1 = true /\ names_columns line = false /\
      exists w0 w1 ws,
        split (upper line) = w0 :: w1 :: ws /\
        no_empty_series d1 /\ last (series d1 "NSTEP") <> Some w0 /\
        d0 = setitem "ENERGY" w1 (setitem "NSTEP" w0 d1)) ->
     findall record_pattern (upper line) = (before ++ (key, v) :: after)%list ->
     strip key = "NSTEP" ->
     Forall (fun r => strip (fst r) <> "NSTEP") before ->
     last (series d0 "NSTEP") = Some v ->
     snd (_update_energy_dict p nrg d) = EarlyReturn /\
     (forall k, series (fst (_update_energy_dict p nrg d)) k
                = (series d0 k ++ values_for k before)%list) /\
     (before = [] -> fst (_update_energy_dict p nrg d) = d0)).
Proof.
  intros Hlines Hpre Hreads. split.
  - intros v ws Hp -> Hcol Hsplit Hlast.
    destruct p; try discriminate Hp.
    destruct (last_series d1 v Hlast) as (l & Hl & Hv).
    apply (update_at_line _ _ _ _ _ _ _ _ Hlines Hpre).
    exact (process_line_values_repeat d1 line l v ws Hreads Hcol Hsplit Hl Hv).
  - intros d0 before key v after Hentry Hrecords Hkey Hbefore Hlast.
    assert (Hloop0 : exists h0, process_line p h1 d1 line
                       = for_records h0 (findall record_pattern (upper line)) d0).
    { destruct Hentry as [[Hcase ->] | (Hp & -> & Hcol & w0 & w1 & ws & Hsplit & Hne & Hnew & ->)].
      - exists h1. apply process_line_records; assumption.
      - destruct p; try discriminate Hp. exists false.
        apply (process_line_values_new d1 line w0 w1 ws); assumption. }
    destruct Hloop0 as [h0 Hloop0].
    destruct (for_records_no_step h0 before d0 Hbefore) as (d2 & Hloop & Hstep & Hseries).
    destruct (last_series d0 v Hlast) as (l & Hl & Hv).
    assert (Hstop : process_line p h1 d1 line = Stop d2).
    { rewrite Hloop0, Hrecords.
      apply for_records_repeat; [exact Hkey | exact Hloop |].
      apply (same_step_repeat d2 l v); [rewrite Hstep; exact Hl | exact Hv]. }
    rewrite (update_at_line _ _ _ _ _ _ _ _ Hlines Hpre d2 Hstop). cbn [fst snd].
    split; [reflexivity |]. split; [exact Hseries |].
    intros ->. cbn [for_records] in Hloop. congruence.
Qed.

Lemma no_new_frame_ends_the_update_witness :
  _update_energy_dict MINIMISATION Samples.minimisation_log Samples.minimisation_store
    = (Samples.minimisation_store, EarlyReturn) /\
  snd (_update_energy_dict PRODUCTION
         (Samples.frame_100 +:+ Samples.frame_100 +:+ MoreSamples.frame_200) ∅)
    = EarlyReturn /\
  fst (_update_energy_dict PRODUCTION
         (Samples.frame_100 +:+ Samples.frame_100 +:+ MoreSamples.frame_200) ∅)
    = Samples.store_100.
Proof.
  split.
  - pose proof (no_new_frame_ends_the_update MINIMISATION Samples.minimisation_log
                  Samples.minimisation_store [MoreSamples.header_line]
                  ("    100      -1.2345E+03     1.2E+01" +:+ newline)
                  [" BOND    =        1.5  ANGLE   =        2.5" +:+ newline]
                  true Samples.minimisation_store) as Hrepeat.
    destruct Hrepeat as [Hvalues _].
    + vm_compute. reflexivity.
    + vm_compute. reflexivity.
    + vm_compute. reflexivity.
    + apply (Hvalues "100" ["-1.2345E+03"; "1.2E+01"]).
      * reflexivity.
      * reflexivity.
      * vm_compute. reflexivity.
      * vm_compute. reflexivity.
      * vm_compute. reflexivity.
  - pose proof (no_new_frame_ends_the_update PRODUCTION
                  (Samples.frame_100 +:+ Samples.frame_100 +:+ MoreSamples.frame_200) ∅
                  [Samples.frame_100] Samples.frame_100 [MoreSamples.frame_200]
                  false Samples.store_100) as Hrepeat.
    destruct Hrepeat as [_ Hrecords].
    + vm_compute. reflexivity.
    + vm_compute. reflexivity.
    + vm_compute. reflexivity.
    + destruct (Hrecords Samples.store_100 [] "NSTEP" "100"
                  [("   TIME(PS)", "0.200"); ("  ETOT", "-1234.5")])
        as (Hend & _ & Hstore).
      * left. split; [left; reflexivity | reflexivity].
      * vm_compute. reflexivity.
      * reflexivity.
      * constructor.
      * vm_compute. reflexivity.
      * split; [exact Hend | exact (Hstore eq_refl)].
Defined.

(** C1. Dynamics dialect.  A frame is a text whose first record is the step
    count and that has no other record with the key NSTEP.  Read into a
    store whose last step count is another one, the frame is appended: each
    key's series grows by the values of the frame, the series of NSTEP by the
    one step count.  A second frame with the same step count is not
    appended, whether it comes in a second call or right after the first
    frame in the file of one call: the call returns early and the store is
    the store after the first frame, so that the time series of NSTEP has
    the one value more, not two.  For the line
    NSTEP = 100   TIME(PS) = 0.200  ETOT = -1234.5
    and its exact repeat, read into the empty store, the series of NSTEP has
    length one and the time series returned is the list of the integer
    100. *)
Theorem repeated_frame_appended_once p nrg nrg' v d :
  is_minimisation p = false ->
  one_frame nrg v -> one_frame nrg' v ->
  no_empty_series d -> last (series d "NSTEP") <> Some v ->
  let once := _update_energy_dict p nrg d in
  let twice := _update_energy_dict p nrg' (fst once) in
  (snd once = EndOfFile /\
   (forall key, series (fst once) key
                = (series d key ++ values_for key (file_records (lines nrg)))%list) /\
   series (fst once) "NSTEP" = (series d "NSTEP" ++ [v])%list) /\
  (fst twice = fst once /\ snd twice = EarlyReturn) /\
  (forall both more,
     lines both = (lines nrg ++ lines nrg' ++ more)%list ->
     fst (_update_energy_dict p both d) = fst once /\
     snd (_update_energy_dict p both d) = EarlyReturn) /\
  _get_stdout_record (fst twice) (lit "NSTEP") (Flag true)
    = (xs ← comprehension int_of_str (series d "NSTEP" ++ [v])%list; Return (VInts xs)) /\
  (let repeated :=
     _update_energy_dict PRODUCTION (Samples.frame_100 +:+ Samples.frame_100) ∅ in
   series (fst repeated) "NSTEP" = ["100"] /\
   _get_stdout_record (fst repeated) (lit "NSTEP") (Flag true) = Return (VInts [100])).
Proof.
  intros Hp Hframe Hframe' Hne Hnew. cbv zeta.
  pose proof (one_frame_update p nrg v d Hp Hframe) as Honce.
  rewrite (same_step_new d v Hne Hnew) in Honce.
  destruct Honce as (Hend & Hstep & Hseries).
  pose proof (one_frame_update p nrg' v (fst (_update_energy_dict p nrg d)) Hp Hframe')
    as Htwice.
  rewrite (same_step_last _ _ _ Hstep) in Htwice.
  split; [| split; [| split; [| split]]].
  - split; [exact Hend |]. split; [exact Hseries |].
    unfold series at 1. rewrite Hstep. reflexivity.
  - rewrite Htwice. split; reflexivity.
  - intros both more Hlines.
    assert (Hfirst : for_lines p false d (lines nrg)
                     = Next false (fst (_update_energy_dict p nrg d))).
    { revert Hend. unfold _update_energy_dict.
      destruct (for_lines p false d (lines nrg)) as [h' d' | d' | e d'] eqn:Hrun;
        cbn [fst snd]; try discriminate. intros _.
      rewrite for_lines_dynamics in Hrun by exact Hp.
      apply for_records_Next in Hrun as Hh. subst h'. reflexivity. }
    assert (Hsecond : for_lines p false (fst (_update_energy_dict p nrg d)) (lines nrg')
                      = Stop (fst (_update_energy_dict p nrg d))).
    { revert Htwice. unfold _update_energy_dict at 1.
      destruct (for_lines p false (fst (_update_energy_dict p nrg d)) (lines nrg'))
        as [h' d' | d' | e d']; intros [= ->]; reflexivity. }
    unfold _update_energy_dict at 1 3.
    rewrite Hlines, for_lines_app, Hfirst, for_lines_app, Hsecond.
    split; reflexivity.
  - rewrite Htwice. cbn [fst].
    destruct (query_present (fst (_update_energy_dict p nrg d)) (lit "NSTEP") _ Hstep)
      as [Hquery _].
    exact Hquery.
  - pose proof (frame_100_read_twice PRODUCTION) as Hsample. cbv zeta in Hsample.
    destruct Hsample as (Hboth & _ & _ & Hnstep & Hquery).
    rewrite Hboth. cbn [fst]. split; [| exact Hquery].
    unfold series. rewrite Hnstep. reflexivity.
Qed.

Lemma repeated_frame_appended_once_witness :
  series (fst (_update_energy_dict PRODUCTION Samples.frame_100
                 (fst (_update_energy_dict PRODUCTION Samples.frame_100 ∅)))) "NSTEP"
    = ["100"] /\
  snd (_update_energy_dict PRODUCTION Samples.frame_100
         (fst (_update_energy_dict PRODUCTION Samples.frame_100 ∅))) = EarlyReturn.
Proof.
  pose proof (repeated_frame_appended_once PRODUCTION Samples.frame_100 Samples.frame_100
                "100" ∅) as Hrepeat.
  cbv zeta in Hrepeat.
  destruct Hrepeat as ((_ & _ & Hstep) & (Hstore & Hend) & _).
  - reflexivity.
  - exact frame_100_one_frame.
  - exact frame_100_one_frame.
  - intros k l Hl. rewrite lookup_empty in Hl. discriminate Hl.
  - discriminate.
  - split; [| exact Hend]. rewrite Hstore. exact Hstep.
Defined.

End RepeatFacts.

(** ** More about the frames and the trajectory *)

Module FrameFacts.
Import Py Amber AmberMore AmberFacts.

Ltac run := cbn [mbind result_bind mret result_ret].

Section Frames.
Context {Frame : Type}.
Implicit Types (traj frames : list Frame) (x : Z) (zs : list Z).

Lemma frame_at_nth traj x : frame_at traj x = match nth_frame traj x with
                                              | Some f => Return f
                                              | None => Raise IndexError
                                              end.
Proof.
  unfold frame_at, nth_frame. cbv zeta.
  destruct (_ <? 0); [reflexivity |]. destruct (traj !! _); reflexivity.
Qed.

Lemma within_frame traj x : within traj x -> exists f, nth_frame traj x = Some f.
Proof.
  unfold within, nth_frame. intros Hx. cbv zeta.
  destruct (Z.ltb_spec x 0) as [Hneg | Hpos].
  - destruct (Z.ltb_spec (Z.of_nat (length traj) + x) 0) as [? | _]; [lia |].
    apply lookup_lt_is_Some_2. lia.
  - destruct (Z.ltb_spec x 0) as [? | _]; [lia |].
    apply lookup_lt_is_Some_2. lia.
Qed.

Lemma guard_within traj x :
  (Z.abs x >? Z.of_nat (length traj) - 1) = false <-> within traj x.
Proof. unfold within. rewrite Z.gtb_ltb, Z.ltb_ge. reflexivity. Qed.

(** The loop over indices that are all within the bound. *)
Lemma for_indices_within work_dir traj zs acc ff :
  Forall (within traj) zs ->
  exists frames,
    for_indices work_dir traj (Z.of_nat (length traj) - 1) zs acc ff
      = Return ((acc ++ frames)%list,
                match zs with
                | [] => ff
                | _ => Some (work_dir +:+ "/frame.nc")
                end) /\
    Forall2 (fun x f => nth_frame traj x = Some f) zs frames.
Proof.
  intros Hzs. revert acc ff. induction Hzs as [| x zs Hx Hzs IH]; intros acc ff.
  - exists []. rewrite app_nil_r. split; [reflexivity | constructor].
  - cbn [for_indices]. apply guard_within in Hx as Hguard. rewrite Hguard.
    destruct (within_frame traj x Hx) as [f Hf].
    rewrite frame_at_nth, Hf. run.
    destruct (IH (acc ++ [f])%list (Some (work_dir +:+ "/frame.nc")))
      as (frames & Hloop & Hframes).
    exists (f :: frames). rewrite Hloop. split.
    + rewrite <- app_assoc. destruct zs; reflexivity.
    + constructor; assumption.
Qed.

(** The loop over indices one of which is beyond the bound. *)
Lemma for_indices_beyond work_dir traj zs acc ff :
  Exists (fun x => ~ within traj x) zs ->
  for_indices work_dir traj (Z.of_nat (length traj) - 1) zs acc ff
    = Raise (NameError "s").
Proof.
  intros Hzs. revert acc ff. induction zs as [| x zs IH]; intros acc ff.
  - inversion Hzs.
  - cbn [for_indices].
    destruct (Z.abs x >? Z.of_nat (length traj) - 1) eqn:Hguard; [reflexivity |].
    apply guard_within in Hguard.
    destruct (within_frame traj x Hguard) as [f Hf].
    rewrite frame_at_nth, Hf. run. apply IH.
    apply Exists_cons in Hzs as [Hx | Hzs]; [contradiction | exact Hzs].
Qed.

Lemma ints_Int zs : ints (Int <$> zs) = Some zs.
Proof.
  unfold ints. induction zs as [| x zs IH]; [reflexivity |].
  cbn. cbn in IH. rewrite IH. reflexivity.
Qed.

(** X14. [getFrames] on a list of integers, a trajectory being present: when
    the list is not empty and every index is within the bound, the result
    has one frame for each index, in the order asked and with repeats, each
    the frame that its index denotes (negative indices from the end); when
    some index is beyond the bound, the call raises and returns none of the
    frames, however many indices before it were good. *)
Theorem getFrames_all_or_nothing work_dir traj zs :
  (zs <> [] -> Forall (within traj) zs ->
   exists frames,
     getFrames work_dir (Some traj) (IndexList (Int <$> zs)) = Return (Some frames) /\
     Forall2 (fun x f => nth_frame traj x = Some f) zs frames) /\
  (Exists (fun x => ~ within traj x) zs ->
   getFrames work_dir (Some traj) (IndexList (Int <$> zs)) = Raise (NameError "s")).
Proof.
  split.
  - intros Hne Hzs. unfold getFrames. rewrite ints_Int. run.
    destruct (for_indices_within work_dir traj zs [] None Hzs) as (frames & -> & Hframes).
    run. exists frames. split; [| exact Hframes].
    destruct zs; [contradiction | reflexivity].
  - intros Hzs. unfold getFrames. rewrite ints_Int. run.
    rewrite for_indices_beyond by exact Hzs. reflexivity.
Qed.

(** X15. [getFrames] without indices: the frames of the trajectory, all of
    them and in order, when the trajectory has a frame; an
    [UnboundLocalError] when the trajectory file holds no frame; [None] when
    there is no trajectory file.  [nFrames] is the number of frames
    returned. *)
Theorem getFrames_default_is_every_frame work_dir traj :
  getFrames work_dir (Some traj) NoIndices
    = match traj with
      | [] => Raise (UnboundLocalError "frame_file")
      | _ => Return (Some traj)
      end /\
  getFrames work_dir (@None (list Frame)) NoIndices = Return None /\
  nFrames (Some traj) = Z.of_nat (length traj).
Proof.
  split; [| split; reflexivity].
  unfold getFrames. run.
  assert (Hall : Forall (within traj) (Z.of_nat <$> seq 0 (length traj))).
  { apply Forall_fmap, Forall_forall. intros i Hi. apply elem_of_seq in Hi.
    unfold within. cbn. lia. }
  destruct (for_indices_within work_dir traj _ [] None Hall) as (frames & -> & Hframes).
  run. cbn [app].
  assert (Heq : frames = traj).
  { apply list_eq. intros i.
    pose proof (Forall2_length _ _ _ Hframes) as Hlen.
    rewrite length_fmap, length_seq in Hlen.
    destruct (decide (i < length traj)%nat) as [Hlt | Hge].
    - assert (Hi : (Z.of_nat <$> seq 0 (length traj)) !! i = Some (Z.of_nat i)).
      { rewrite list_lookup_fmap, lookup_seq_lt by exact Hlt. reflexivity. }
      destruct (Forall2_lookup_l _ _ _ _ _ Hframes Hi) as (f & Hf & Hnth).
      rewrite Hf. unfold nth_frame in Hnth. cbv zeta in Hnth.
      destruct (Z.ltb_spec (Z.of_nat i) 0) as [? | _]; [lia |]. cbv iota in Hnth.
      destruct (Z.ltb_spec (Z.of_nat i) 0) as [? | _]; [lia |].
      rewrite Nat2Z.id in Hnth. congruence.
    - rewrite !lookup_ge_None_2 by lia. reflexivity. }
  subst frames. destruct traj; reflexivity.
Qed.

(** X16. The bound is on the absolute value of the index: on a trajectory of
    [n >= 1] frames the indices [-1] down to [-(n-1)] give the frames counted
    from the end, and the index [-n], which denotes the first frame, is
    refused like the index [n]. *)
Theorem getFrames_negative_indices work_dir (f0 : Frame) (rest : list Frame) :
  let traj := f0 :: rest in
  let n := Z.of_nat (length traj) in
  (forall k, 1 <= k <= n - 1 ->
     exists f, traj !! Z.to_nat (n - k) = Some f /\
               getFrames work_dir (Some traj) (OneIndex (- k)) = Return (Some [f])) /\
  nth_frame traj (- n) = Some f0 /\
  getFrames work_dir (Some traj) (OneIndex (- n)) = Raise (NameError "s").
Proof.
  cbv zeta. set (traj := f0 :: rest). set (n := Z.of_nat (length traj)).
  assert (Hn : 1 <= n) by (unfold n, traj; cbn [length]; lia).
  split; [| split].
  - intros k Hk.
    assert (Hin : Forall (within traj) [- k]).
    { constructor; [| constructor]. unfold within. fold n. lia. }
    destruct (for_indices_within work_dir traj [- k] [] None Hin) as (frames & Hloop & Hfr).
    apply Forall2_cons_inv_l in Hfr as (f & fs & Hf & Hnil & ->).
    apply Forall2_nil_inv_l in Hnil as ->.
    exists f. split.
    + unfold nth_frame in Hf. cbv zeta in Hf. fold n in Hf.
      destruct (Z.ltb_spec (- k) 0) as [_ | ?]; [| lia]. cbv iota in Hf.
      destruct (Z.ltb_spec (n + - k) 0) as [? | _]; [lia |].
      replace (n - k) with (n + - k) by lia. exact Hf.
    + unfold getFrames. run. rewrite Hloop. reflexivity.
  - unfold nth_frame. cbv zeta. fold n.
    destruct (Z.ltb_spec (- n) 0) as [_ | ?]; [| lia]. cbv iota.
    replace (n + - n) with 0 by lia. reflexivity.
  - unfold getFrames. run.
    rewrite for_indices_beyond; [reflexivity |].
    constructor. unfold within. fold n. lia.
Qed.

(** X17. [getTrajectory] with a trajectory file present: the MDTraj object
    is returned exactly when the argument is the very string object of the
    literal ['mdtraj'], as it is for the default; every other value, the
    accepted spellings ['MDTRAJ'] or ['MDTraj'] and an equal string made at
    run time among them, gives the MDAnalysis universe; so does a value that
    is not accepted, after the warning that MDTraj will be used. *)
Theorem getTrajectory_is_mdtraj_only_for_the_literal (frames : list Frame) (format : str) :
  snd (getTrajectory (Some frames) format)
    = Some (if py_is format (lit "mdtraj") then MDTraj frames else Universe frames) /\
  (fst (getTrajectory (Some frames) format) = true ->
   snd (getTrajectory (Some frames) format) = Some (Universe frames)) /\
  snd (getTrajectory (Some frames) (lit "mdtraj")) = Some (MDTraj frames) /\
  snd (getTrajectory (Some frames) (computed "mdtraj")) = Some (Universe frames) /\
  snd (getTrajectory (Some frames) (lit "MDTRAJ")) = Some (Universe frames).
Proof.
  assert (Hlit : py_is format (lit "mdtraj") = true ->
                 bool_decide (upper (text format) ∈ ["MDTRAJ"; "MDANALYSIS"]) = true).
  { unfold py_is. cbn [text lit org]. intros His.
    assert (Htext : text format = "mdtraj").
    { destruct (String.length (text format) <=? 1)%nat.
      - apply String.eqb_eq. exact His.
      - destruct (org format); [apply String.eqb_eq; exact His | discriminate]. }
    rewrite Htext. reflexivity. }
  unfold getTrajectory. cbv zeta.
  destruct (bool_decide (upper (text format) ∈ ["MDTRAJ"; "MDANALYSIS"])) eqn:Hknown;
    cbn [negb fst snd].
  - repeat split; try reflexivity. discriminate.
  - destruct (py_is format (lit "mdtraj")) eqn:His.
    + discriminate (Hlit eq_refl).
    + repeat split; reflexivity.
Qed.

End Frames.

Lemma getFrames_all_or_nothing_witness :
  (exists frames,
     getFrames "wd" (Some [10; 20; 30]) (IndexList (Int <$> [2; -1; 0])) = Return (Some frames) /\
     Forall2 (fun x f => nth_frame [10; 20; 30] x = Some f) [2; -1; 0] frames) /\
  getFrames "wd" (Some [10; 20; 30]) (IndexList (Int <$> [0; 3])) = Raise (NameError "s").
Proof.
  split.
  - apply (proj1 (getFrames_all_or_nothing "wd" [10; 20; 30] [2; -1; 0])); [discriminate |].
    repeat apply List.Forall_cons; try apply List.Forall_nil; unfold within; cbn; lia.
  - apply (proj2 (getFrames_all_or_nothing "wd" [10; 20; 30] [0; 3])).
    apply List.Exists_cons_tl, List.Exists_cons_hd. unfold within. cbn. lia.
Defined.

Lemma getFrames_negative_indices_witness :
  exists f, [10; 20; 30] !! Z.to_nat (3 - 2) = Some f /\
            getFrames "wd" (Some [10; 20; 30]) (OneIndex (- 2)) = Return (Some [f]).
Proof.
  pose proof (getFrames_negative_indices "wd" 10 [20; 30]) as Hn.
  cbv zeta in Hn. destruct Hn as (Hn & _).
  apply (Hn 2). cbn. lia.
Defined.

(** *** The constructor *)

Lemma init_exe_raises {Protocol : Type} environ isfile findExe inherited exe
    (protocol : Protocol) :
  (exists e, init_exe environ isfile findExe inherited exe protocol = Raise e) <->
  (exists path, exe = Some path /\ isfile path = false) \/
  (exe = None /\ environ !! "AMBERHOME" = None /\ exists e, findExe "sander" = Raise e).
Proof.
  unfold init_exe. destruct exe as [path |].
  - destruct (isfile path) eqn:Hpath.
    + split; [intros [e He]; discriminate He |].
      intros [(path' & Hsome & Hno) | (Hnone & _)]; congruence.
    + split; [intros _; left; eauto | intros _; eexists; reflexivity].
  - destruct (environ !! "AMBERHOME") as [home |] eqn:Hhome.
    + split.
      * destruct (isfile _); intros [e He]; discriminate He.
      * intros [(path & Hsome & _) | (_ & Hnone & _)]; congruence.
    + destruct (findExe "sander") as [p | e] eqn:Hfind; cbn [mbind result_bind].
      * split; [intros [e He]; discriminate He |].
        intros [(path & Hsome & _) | (_ & _ & e & He)]; congruence.
      * split; [intros _; right; eauto | intros _; eauto].
Qed.

Lemma init_files_raises isfile wipe work_dir name is_custom protocol_path :
  (exists e, init_files isfile wipe work_dir name is_custom protocol_path = Raise e) <->
  (exists e, wipe (work_dir +:+ "/" +:+ name +:+ ".nrg") = Raise e) \/
  (is_custom = true /\ isfile protocol_path = false).
Proof.
  unfold init_files. cbv zeta.
  destruct (wipe _) as [[] | e] eqn:Hwipe; cbn [mbind result_bind].
  - destruct is_custom; cbn [negb].
    + destruct (isfile protocol_path); cbn [mbind result_bind].
      * split; [intros [e He]; discriminate He |].
        intros [[e He] | [_ Hno]]; congruence.
      * split; [auto | intros _; eexists; reflexivity].
    + cbn [mbind result_bind]. split; [intros [e He]; discriminate He |].
      intros [[e He] | [Hno _]]; congruence.
  - split; [intros _; left | intros _]; eauto.
Qed.

(** X24. Lines 146 to 196 of the constructor raise exactly in four cases:
    an explicit executable that is not a file; no explicit executable, no
    AMBERHOME, and a lookup on the system path that raises; an energy file
    that cannot be opened for writing; a custom configuration file that is
    not a file.  In the last case, the lines before it having passed, the
    exception is the [NameError] of the name [config_file] read for the
    message, not the [IOError].  With AMBERHOME set the lookup on the system
    path plays no part. *)
Theorem init_raises_in_four_cases {Protocol : Type} environ isfile wipe findExe
    inherited exe (protocol : Protocol) protocol_path is_custom work_dir name :
  let run findExe := init environ isfile wipe findExe inherited exe protocol
                       protocol_path is_custom work_dir name in
  ((exists e, run findExe = Raise e) <->
   (exists path, exe = Some path /\ isfile path = false) \/
   (exe = None /\ environ !! "AMBERHOME" = None /\ exists e, findExe "sander" = Raise e) \/
   (exists e, wipe (work_dir +:+ "/" +:+ name +:+ ".nrg") = Raise e) \/
   (is_custom = true /\ isfile protocol_path = false)) /\
  ((exists v, init_exe environ isfile findExe inherited exe protocol = Return v) ->
   wipe (work_dir +:+ "/" +:+ name +:+ ".nrg") = Return () ->
   is_custom = true -> isfile protocol_path = false ->
   run findExe = Raise (NameError "config_file")) /\
  (is_Some (environ !! "AMBERHOME") -> forall findExe', run findExe = run findExe').
Proof.
  cbv zeta. unfold init.
  pose proof (init_exe_raises environ isfile findExe inherited exe protocol) as Hexe.
  pose proof (init_files_raises isfile wipe work_dir name is_custom protocol_path) as Hfiles.
  split; [| split].
  - destruct (init_exe environ isfile findExe inherited exe protocol) as [v | e];
      cbn [mbind result_bind].
    + destruct (init_files isfile wipe work_dir name is_custom protocol_path) as [fs | e'];
        cbn [mbind result_bind].
      * split; [intros [e He']; discriminate He' |].
        intros [Hcase | [Hcase | [Hcase | Hcase]]].
        -- destruct (proj2 Hexe (or_introl Hcase)) as [e He']. discriminate He'.
        -- destruct (proj2 Hexe (or_intror Hcase)) as [e He']. discriminate He'.
        -- destruct (proj2 Hfiles (or_introl Hcase)) as [e He']. discriminate He'.
        -- destruct (proj2 Hfiles (or_intror Hcase)) as [e He']. discriminate He'.
      * split; [| eauto]. intros _.
        destruct (proj1 Hfiles (ex_intro _ e' eq_refl)) as [Hcase | Hcase]; auto.
    + split; [| eauto]. intros _.
      destruct (proj1 Hexe (ex_intro _ e eq_refl)) as [Hcase | Hcase]; auto.
  - intros [v Hv] Hwipe Hcustom Hmissing. rewrite Hv. cbn [mbind result_bind].
    subst is_custom. unfold init_files. cbv zeta. rewrite Hwipe. cbn [mbind result_bind negb].
    rewrite Hmissing. reflexivity.
  - intros [home Hhome] findExe'. unfold init_exe.
    destruct exe; [reflexivity |]. rewrite Hhome. reflexivity.
Qed.

Lemma init_raises_in_four_cases_witness :
  init (Protocol := unit) ∅ (fun _ => false) (fun _ => Return ())
    (fun _ => Return "/usr/bin/sander") None None tt "custom.in" true "/tmp" "amber"
  = Raise (NameError "config_file").
Proof.
  pose proof (init_raises_in_four_cases (Protocol := unit) ∅ (fun _ => false)
                (fun _ => Return ()) (fun _ => Return "/usr/bin/sander") None None tt
                "custom.in" true "/tmp" "amber") as Hinit.
  cbv zeta in Hinit. destruct Hinit as (_ & Hname & _).
  apply Hname; [eexists; reflexivity | reflexivity | reflexivity | reflexivity].
Defined.

End FrameFacts.

(** ** More about the scores and the ranking *)

Module RankingFacts.
Import Py Align AlignMore AlignFacts.

Lemma sort_sorted {A K : Type} (lt : K -> K -> bool) (l : list (A * K)) :
  StronglySorted (fun x y => lt (snd y) (snd x) = false) l -> sort lt l = l.
Proof.
  induction 1 as [| x l Hl IH Hx]; [reflexivity |].
  cbn [sort]. rewrite IH. destruct l as [| y l]; [reflexivity |].
  cbn [insert]. apply Forall_cons in Hx as [Hxy _]. rewrite Hxy. reflexivity.
Qed.

Lemma StronglySorted_by_lookup {X : Type} (R : X -> X -> Prop) (l : list X) :
  (forall (i j : nat) x y, (i < j)%nat -> l !! i = Some x -> l !! j = Some y -> R x y) ->
  StronglySorted R l.
Proof.
  induction l as [| z l IH]; intros Hl; constructor.
  - apply IH. intros i j x y Hij Hi Hj. apply (Hl (S i) (S j)); [lia | exact Hi | exact Hj].
  - apply Forall_forall. intros y Hy. apply list_elem_of_lookup in Hy as [j Hj].
    apply (Hl 0%nat (S j)); [lia | reflexivity | exact Hj].
Qed.

Section ScoreFacts.
Context {Molecule AtomIdx Vector Score Time : Type} `{Inhabited Score}.
Context (align : Molecule -> Molecule -> list (AtomIdx * AtomIdx) -> Molecule).
Context (coordinates : Molecule -> AtomIdx -> Vector).
Context (getRMSD : list Vector -> list Vector -> Score).
Context (lt : Score -> Score -> bool).
Context (findMCSmatches : Molecule -> Molecule -> list (AtomIdx * AtomIdx) ->
                          Time -> bool -> list (list (AtomIdx * AtomIdx))).
Implicit Types (ms : list (list (AtomIdx * AtomIdx))).

Local Abbreviation score_rmsd := (_score_rmsd align coordinates getRMSD lt).
Local Abbreviation match_atoms := (matchAtoms align coordinates getRMSD lt findMCSmatches).
Local Abbreviation loop := (for_mappings align coordinates getRMSD).
Local Abbreviation score_of := (score coordinates getRMSD).
Local Abbreviation obj := (@object Molecule AtomIdx Time).
Local Abbreviation match_call :=
  (matchAtoms_call align coordinates getRMSD lt findMCSmatches).

(** X18. Without alignment the score of a candidate is the RMSD of its own
    pairs on the two molecules as given: it depends neither on the other
    candidates nor on their order, and the alignment is never called. *)
Theorem scores_without_alignment m0 m1 ms acc :
  for_mappings align coordinates getRMSD m0 m1 false ms acc
  = (acc ++ (score coordinates getRMSD m0 m1 <$> ms))%list.
Proof.
  revert acc. induction ms as [| map ms IH]; intros acc; cbn [for_mappings].
  - rewrite app_nil_r. reflexivity.
  - rewrite IH, <- app_assoc. reflexivity.
Qed.

Lemma scores_with_alignment_loop m0 m1 ms acc :
  loop m0 m1 true ms acc =
  (acc ++ imap (fun k map => score_of (moved align m0 m1 (take (S k) ms)) m1 map) ms)%list.
Proof.
  revert m0 acc. induction ms as [| map ms IH]; intros m0 acc; cbn [for_mappings].
  - rewrite app_nil_r. reflexivity.
  - rewrite IH, <- app_assoc. reflexivity.
Qed.

(** X19. With alignment the alignments add up: candidate [k] is scored on
    [molecule0] as moved by the alignments on the candidates 0 to [k], one
    after the other, not on [molecule0] as given. *)
Theorem scores_with_alignment m0 m1 ms (k : nat) map :
  ms !! k = Some map ->
  for_mappings align coordinates getRMSD m0 m1 true ms [] !! k
    = Some (score coordinates getRMSD (moved align m0 m1 (take (S k) ms)) m1 map).
Proof.
  intros Hk. rewrite scores_with_alignment_loop. cbn [app].
  rewrite list_lookup_imap, Hk. reflexivity.
Qed.

(** X20. When the scores come out of the loop already in order, no score
    smaller than one before it, the scoring step returns the candidates in
    the order the matcher gave them, each with its score. *)
Theorem ordered_candidates_keep_their_order m0 m1 ms a :
  (forall (i j : nat) x y, (i < j)%nat ->
     for_mappings align coordinates getRMSD m0 m1 a ms [] !! i = Some x ->
     for_mappings align coordinates getRMSD m0 m1 a ms [] !! j = Some y ->
     lt y x = false) ->
  _score_rmsd align coordinates getRMSD lt m0 m1 ms a
  = (ms, angstrom <$> for_mappings align coordinates getRMSD m0 m1 a ms []).
Proof.
  intros Hordered. unfold _score_rmsd. cbv zeta.
  set (scores := loop m0 m1 a ms []) in *.
  assert (Hkeys : sorted_keys lt scores = seq 0 (length scores)).
  { unfold sorted_keys, sorted. rewrite sort_sorted.
    - generalize (seq 0 (length scores)). intros l.
      induction l as [| k l IH]; [reflexivity |]. cbn. f_equal. exact IH.
    - apply StronglySorted_by_lookup. intros i j x y Hij Hi Hj.
      rewrite list_lookup_fmap in Hi, Hj.
      destruct (seq 0 (length scores) !! i) as [i' |] eqn:Hi'; [| discriminate].
      destruct (seq 0 (length scores) !! j) as [j' |] eqn:Hj'; [| discriminate].
      apply lookup_seq in Hi' as [-> Hilt]. apply lookup_seq in Hj' as [-> Hjlt].
      cbn in Hi, Hj. injection Hi as <-. injection Hj as <-. cbn [snd].
      apply (Hordered i j); [exact Hij | |];
        apply list_lookup_lookup_total_lt; assumption. }
  rewrite Hkeys. f_equal.
  - unfold scores. rewrite length_scores. apply lookup_total_seq.
  - rewrite <- (lookup_total_seq scores) at 2. rewrite <- list_fmap_compose. reflexivity.
Qed.

(** X22. With at least one candidate and [matches] not 1 (0 is accepted):
    the result is the first [matches] entries of the ranking, so
    [min(matches, N)] mappings, each one of the candidates of the matcher,
    and with [return_scores] as many scores; for [matches = 0] it is an
    empty list, not [None]. *)
Theorem matchAtoms_returns_the_first_matches m0 m1 sf K rs pre t ml :
  normalised sf ∈ scoring_functions -> 0 <= K -> K <> 1 ->
  findMCSmatches m0 m1 pre t ml <> [] ->
  let candidates := findMCSmatches m0 m1 pre t ml in
  let ranking := score_rmsd m0 m1 candidates (String.eqb (normalised sf) "RMSDALIGN") in
  let chosen := take (Z.to_nat K) (fst ranking) in
  match_atoms m0 m1 sf K rs pre t ml
    = Return (if rs then RankedScored chosen (take (Z.to_nat K) (snd ranking))
              else Ranked chosen) /\
  length chosen = Nat.min (Z.to_nat K) (length candidates) /\
  length (take (Z.to_nat K) (snd ranking)) = length chosen /\
  (forall m, m ∈ chosen -> m ∈ candidates) /\
  (K = 0 -> chosen = []).
Proof.
  intros Hsf HK HK1 Hne. cbv zeta.
  set (candidates := findMCSmatches m0 m1 pre t ml) in *.
  set (a := String.eqb (normalised sf) "RMSDALIGN").
  destruct (length_score_rmsd align coordinates getRMSD lt m0 m1 a candidates)
    as [Hlen1 Hlen2].
  split; [| split; [| split; [| split]]].
  - rewrite matchAtoms_checked by assumption. cbv zeta. fold candidates. fold a.
    destruct candidates as [| c cs]; [contradiction |]. cbn [length Nat.eqb].
    destruct (Z.eqb_spec K 1) as [? | _]; [contradiction |].
    destruct rs; reflexivity.
  - rewrite length_take, Hlen1. reflexivity.
  - rewrite !length_take, Hlen1, Hlen2. reflexivity.
  - intros m Hm. apply elem_of_take in Hm as (i & Hi & _).
    apply list_elem_of_lookup_2 in Hi.
    rewrite (score_rmsd_Permutation align coordinates getRMSD lt m0 m1 a candidates) in Hi.
    exact Hi.
  - intros ->. reflexivity.
Qed.

(** [matchAtoms] on arguments of the documented types returns when the
    scoring function is supported and [matches] is not negative. *)
Lemma matchAtoms_returns m0 m1 sf K rs pre t ml :
  normalised sf ∈ scoring_functions -> 0 <= K ->
  exists r, match_atoms m0 m1 sf K rs pre t ml = Return r.
Proof.
  intros Hsf HK. rewrite matchAtoms_checked by assumption. cbv zeta.
  set (candidates := findMCSmatches m0 m1 pre t ml).
  set (a := String.eqb (normalised sf) "RMSDALIGN").
  destruct (length candidates =? 0)%nat eqn:Hlen; [eauto |].
  destruct (K =? 1); [| destruct rs; eauto].
  destruct (length_score_rmsd align coordinates getRMSD lt m0 m1 a candidates)
    as [Hlen1 _].
  destruct (fst (score_rmsd m0 m1 candidates a)) as [| best rest]; [| eauto].
  apply Nat.eqb_neq in Hlen. cbn in Hlen1. congruence.
Qed.

Lemma matchAtoms_raises_ValueError m0 m1 sf K rs pre t ml :
  normalised sf ∉ scoring_functions \/ K < 0 ->
  exists msg, match_atoms m0 m1 sf K rs pre t ml = Raise (ValueError msg).
Proof.
  intros Hbad. unfold matchAtoms. fold (normalised sf).
  destruct (bool_decide (normalised sf ∈ scoring_functions)) eqn:Hsf; cbn [negb]; [| eauto].
  apply bool_decide_eq_true in Hsf. destruct Hbad as [? | HK]; [contradiction |].
  destruct (Z.ltb_spec K 0) as [_ | ?]; [eauto | lia].
Qed.

Lemma atom_pairs_atom_dict (pairs : list (AtomIdx * AtomIdx)) :
  atom_pairs ((fun p => (AtomIdxEntry (fst p), AtomIdxEntry (snd p))) <$> pairs)
  = Return pairs.
Proof.
  induction pairs as [| [i j] pairs IH]; [reflexivity |].
  cbn. rewrite IH. reflexivity.
Qed.

Lemma atom_pairs_Return items (pairs : list (AtomIdx * AtomIdx)) :
  atom_pairs items = Return pairs ->
  items = (fun p => (AtomIdxEntry (fst p), AtomIdxEntry (snd p))) <$> pairs.
Proof.
  revert pairs. induction items as [| [[i |] [j |]] items IH]; intros pairs; cbn;
    try discriminate.
  - intros [= <-]. reflexivity.
  - destruct (atom_pairs items) as [ps | e]; cbn; [| discriminate].
    intros [= <-]. cbn. rewrite <- (IH ps eq_refl). reflexivity.
Qed.

Lemma atom_pairs_raises items e :
  atom_pairs (AtomIdx := AtomIdx) items = Raise e -> exists msg, e = TypeError msg.
Proof.
  induction items as [| [[i |] [j |]] items IH]; cbn; try discriminate;
    try (intros [= <-]; eauto).
  destruct (atom_pairs items) as [ps | e']; cbn; [discriminate |].
  intros [= <-]. apply IH. reflexivity.
Qed.

(** The checks pass on arguments of the documented types whose values are
    valid, and the call is then the call of the typed function. *)
Lemma matchAtoms_call_documented (molecule0 molecule1 scoring_function n_matches
    prematch timeout match_light map0 map1 verbose : obj) rs m0 m1 sf K pre t ml :
  documented molecule0 molecule1 scoring_function n_matches prematch timeout
    match_light map0 map1 verbose m0 m1 sf K pre t ml ->
  match_call molecule0 molecule1 scoring_function n_matches rs prematch timeout
    match_light map0 map1 verbose
  = match_atoms m0 m1 sf K rs pre t ml.
Proof.
  intros (-> & -> & -> & -> & -> & -> & -> & [i0 ->] & [i1 ->] & [b ->]).
  unfold matchAtoms_call, atom_dict.
  cbn [expect_molecule expect_str expect_int expect_dict expect_time expect_bool
       mbind result_bind].
  fold (normalised sf).
  destruct (bool_decide (normalised sf ∈ scoring_functions)) eqn:Hsf; cbn [negb mbind result_bind].
  - destruct (K <? 0) eqn:HK; cbn [mbind result_bind].
    + unfold matchAtoms. fold (normalised sf). rewrite Hsf, HK. reflexivity.
    + rewrite atom_pairs_atom_dict. reflexivity.
  - unfold matchAtoms. fold (normalised sf). rewrite Hsf. reflexivity.
Qed.

(** An argument of a wrong type, before and after the two value checks. *)
Ltac wrong_type :=
  left; split; [eexists; reflexivity |];
  split; [intros (? & ? & ? & ? & ? & ? & ? & Hd & _); unfold documented, atom_dict in Hd;
          decompose [and ex] Hd; discriminate
         | intros (? & ? & ? & ? & ? & ? & Hv); discriminate].

Ltac late_type :=
  left; split; [eexists; reflexivity |]; split; [| assumption];
  intros (? & ? & ? & ? & ? & ? & ? & Hd & _); unfold documented, atom_dict in Hd;
  decompose [and ex] Hd; discriminate.

(** How a call of [matchAtoms] on arguments of any types ends. *)
Lemma matchAtoms_call_cases (molecule0 molecule1 scoring_function n_matches
    prematch timeout match_light map0 map1 verbose : obj) rs :
  let call := match_call molecule0 molecule1 scoring_function n_matches rs prematch
                timeout match_light map0 map1 verbose in
  let valid := exists m0 m1 sf K pre t ml,
    documented molecule0 molecule1 scoring_function n_matches prematch timeout
      match_light map0 map1 verbose m0 m1 sf K pre t ml /\
    normalised sf ∈ scoring_functions /\ 0 <= K in
  let bad_value := exists m0 m1 sf,
    molecule0 = MoleculeObject m0 /\ molecule1 = MoleculeObject m1 /\
    scoring_function = StrObject sf /\
    (normalised sf ∉ scoring_functions \/
     exists K, n_matches = IntObject K /\ K < 0) in
  ((exists msg, call = Raise (TypeError msg)) /\ ~ valid /\ ~ bad_value) \/
  ((exists msg, call = Raise (ValueError msg)) /\ ~ valid /\ bad_value) \/
  ((exists r, call = Return r) /\ valid /\ ~ bad_value).
Proof.
  cbv zeta. unfold matchAtoms_call.
  assert (Hno : forall P : Prop, P -> ~ ~ P) by tauto.
  destruct molecule0 as [m0 | | | | | |]; try (wrong_type; fail).
  destruct molecule1 as [m1 | | | | | |]; try (wrong_type; fail).
  destruct scoring_function as [| sf | | | | |]; try (wrong_type; fail).
  cbn [expect_molecule expect_str mbind result_bind]. fold (normalised sf).
  destruct (bool_decide (normalised sf ∈ scoring_functions)) eqn:Hsf;
    cbn [negb mbind result_bind].
  2:{ apply bool_decide_eq_false in Hsf. right. left.
      split; [eexists; reflexivity |]. split.
      - intros (? & ? & sf' & ? & ? & ? & ? & Hd & Hin & _).
        destruct Hd as (_ & _ & [= <-] & _). contradiction.
      - exists m0, m1, sf. do 3 (split; [reflexivity |]). left. exact Hsf. }
  apply bool_decide_eq_true in Hsf.
  destruct n_matches as [| | K | | | |];
    try (left; split; [eexists; reflexivity |]; split;
         [intros (? & ? & ? & ? & ? & ? & ? & Hd & _);
          destruct Hd as (_ & _ & _ & Hk & _); discriminate Hk
         | intros (? & ? & sf' & _ & _ & [= <-] & [Hv | (? & Hv & ?)]);
           [contradiction | discriminate Hv]]; fail).
  cbn [expect_int mbind result_bind].
  destruct (Z.ltb_spec K 0) as [HK | HK]; cbn [mbind result_bind].
  { right. left. split; [eexists; reflexivity |]. split.
    - intros (? & ? & ? & K' & ? & ? & ? & Hd & _ & HK').
      destruct Hd as (_ & _ & _ & [= <-] & _). lia.
    - exists m0, m1, sf. do 3 (split; [reflexivity |]).
      right. exists K. split; [reflexivity | exact HK]. }
  assert (Hgood : ~ exists m0' m1' sf',
            MoleculeObject m0 = MoleculeObject (Molecule := Molecule) (AtomIdx := AtomIdx) (Time := Time) m0' /\
            MoleculeObject m1 = MoleculeObject (Molecule := Molecule) (AtomIdx := AtomIdx) (Time := Time) m1' /\
            StrObject sf = StrObject (Molecule := Molecule) (AtomIdx := AtomIdx) (Time := Time) sf' /\
            (normalised sf' ∉ scoring_functions \/
             exists K', IntObject K = IntObject (Molecule := Molecule) (AtomIdx := AtomIdx) (Time := Time) K' /\ K' < 0)).
  { intros (? & ? & sf' & _ & _ & [= <-] & [Hv | (K' & [= <-] & ?)]);
      [contradiction | lia]. }
  destruct prematch as [| | | | items | |]; try (late_type; fail).
  cbn [expect_dict mbind result_bind].
  destruct (atom_pairs items) as [pre | e] eqn:Hitems; cbn [mbind result_bind].
  2:{ destruct (atom_pairs_raises _ _ Hitems) as [msg ->].
      left. split; [eauto |]. split; [| assumption].
      intros (? & ? & ? & ? & pre & ? & ? & Hd & _).
      destruct Hd as (_ & _ & _ & _ & [= ->] & _).
      rewrite atom_pairs_atom_dict in Hitems. discriminate Hitems. }
  apply atom_pairs_Return in Hitems. subst items.
  destruct timeout as [| | | | | t |]; try (late_type; fail).
  destruct match_light as [| | | ml | | |]; try (late_type; fail).
  destruct map0 as [| | | | i0 | |]; try (late_type; fail).
  destruct map1 as [| | | | i1 | |]; try (late_type; fail).
  destruct verbose as [| | | b | | |]; try (late_type; fail).
  cbn [expect_time expect_bool expect_dict mbind result_bind].
  right. right. split; [apply matchAtoms_returns; [exact Hsf | lia] |].
  split; [| assumption].
  exists m0, m1, sf, K, pre, t, ml. split; [| split; [exact Hsf | lia]].
  unfold documented, atom_dict. eauto 15.
Qed.

(** X23. [matchAtoms], the checks on the types of its arguments included:
    a call raises exactly when the arguments do not all have the documented
    types with a supported scoring function (spaces removed, in upper case:
    RMSD or RMSDALIGN) and a [matches] that is not negative.  The exception
    is a [ValueError] exactly when the two molecules and the scoring
    function have their types and the scoring function is not supported or
    [matches] is a negative integer, whatever the arguments after them are;
    every other exception is a [TypeError].  On arguments of the documented
    types it raises exactly when the scoring function is not supported or
    [matches] is negative, and then a [ValueError].  The answer of the
    matcher plays no part, and no [IndexError] comes out of taking the first
    of the sorted candidates. *)
Theorem matchAtoms_raises_iff_arguments_invalid (molecule0 molecule1
    scoring_function n_matches prematch timeout match_light map0 map1 verbose : obj) rs :
  let call := matchAtoms_call align coordinates getRMSD lt findMCSmatches
                molecule0 molecule1 scoring_function n_matches rs prematch
                timeout match_light map0 map1 verbose in
  ((exists e, call = Raise e) <->
   ~ exists m0 m1 sf K pre t ml,
       documented molecule0 molecule1 scoring_function n_matches prematch timeout
         match_light map0 map1 verbose m0 m1 sf K pre t ml /\
       normalised sf ∈ scoring_functions /\ 0 <= K) /\
  ((exists msg, call = Raise (ValueError msg)) <->
   exists m0 m1 sf,
     molecule0 = MoleculeObject m0 /\ molecule1 = MoleculeObject m1 /\
     scoring_function = StrObject sf /\
     (normalised sf ∉ scoring_functions \/
      exists K, n_matches = IntObject K /\ K < 0)) /\
  (forall e, call = Raise e ->
     (exists msg, e = ValueError msg) \/ (exists msg, e = TypeError msg)) /\
  (forall m0 m1 sf K pre t ml,
     documented molecule0 molecule1 scoring_function n_matches prematch timeout
       match_light map0 map1 verbose m0 m1 sf K pre t ml ->
     call = matchAtoms align coordinates getRMSD lt findMCSmatches
              m0 m1 sf K rs pre t ml /\
     ((exists e, call = Raise e) <-> normalised sf ∉ scoring_functions \/ K < 0) /\
     (forall e, call = Raise e -> exists msg, e = ValueError msg)).
Proof.
  cbv zeta.
  pose proof (matchAtoms_call_cases molecule0 molecule1 scoring_function n_matches
                prematch timeout match_light map0 map1 verbose rs) as Hcases.
  cbv zeta in Hcases.
  split; [| split; [| split]].
  - destruct Hcases as [([msg Hc] & Hnv & _) | [([msg Hc] & Hnv & _) | ([r Hc] & Hv & _)]].
    + split; [intros _; exact Hnv | eauto].
    + split; [intros _; exact Hnv | eauto].
    + split; [intros [e He]; congruence | intros Hnv; contradiction].
  - destruct Hcases as [([msg Hc] & _ & Hnb) | [([msg Hc] & _ & Hb) | ([r Hc] & _ & Hnb)]].
    + split; [intros [msg' He]; congruence | intros Hb; contradiction].
    + split; [intros _; exact Hb | eauto].
    + split; [intros [msg' He]; congruence | intros Hb; contradiction].
  - intros e He.
    destruct Hcases as [([msg Hc] & _) | [([msg Hc] & _) | ([r Hc] & _)]];
      rewrite Hc in He; [| | discriminate He]; injection He as <-; eauto.
  - intros m0 m1 sf K pre t ml Hdoc.
    rewrite (matchAtoms_call_documented _ _ _ _ _ _ _ _ _ _ rs _ _ _ _ _ _ _ Hdoc).
    split; [reflexivity |].
    destruct (decide (normalised sf ∈ scoring_functions)) as [Hsf | Hsf].
    + destruct (Z.lt_ge_cases K 0) as [HK | HK].
      * destruct (matchAtoms_raises_ValueError m0 m1 sf K rs pre t ml (or_intror HK))
          as [msg Hraise].
        split; [split; eauto |].
        intros e He. rewrite Hraise in He. injection He as <-. eauto.
      * destruct (matchAtoms_returns m0 m1 sf K rs pre t ml Hsf HK) as [r Hr].
        split; [split; [intros [e He]; congruence | intros [? | ?]; [contradiction | lia]] |].
        intros e He. congruence.
    + destruct (matchAtoms_raises_ValueError m0 m1 sf K rs pre t ml (or_introl Hsf))
        as [msg Hraise].
      split; [split; eauto |].
      intros e He. rewrite Hraise in He. injection He as <-. eauto.
Qed.

Section Ordered.
(** [<] on the scores is a strict weak order. *)
Hypothesis lt_asym : forall a b, lt a b = true -> lt b a = false.
Hypothesis not_lt_trans :
  forall a b c, lt b a = false -> lt c b = false -> lt c a = false.

(** X21. For [matches = 1], with at least one candidate and the scores
    ordered as numbers are: the mapping returned is a candidate whose score
    no candidate's score is below, and of the candidates that tie with it
    the one the matcher gave first. *)
Theorem matchAtoms_best_has_the_least_score m0 m1 sf rs pre t ml :
  normalised sf ∈ scoring_functions ->
  findMCSmatches m0 m1 pre t ml <> [] ->
  let candidates := findMCSmatches m0 m1 pre t ml in
  let scores := loop m0 m1 (String.eqb (normalised sf) "RMSDALIGN") candidates [] in
  exists k : nat,
    (k < length candidates)%nat /\
    match_atoms m0 m1 sf 1 rs pre t ml = Return (Best (candidates !!! k)) /\
    forall j : nat, (j < length candidates)%nat ->
      lt (scores !!! j) (scores !!! k) = false /\
      (lt (scores !!! k) (scores !!! j) = false -> (k <= j)%nat).
Proof.
  intros Hsf Hne. cbv zeta.
  set (candidates := findMCSmatches m0 m1 pre t ml) in *.
  set (a := String.eqb (normalised sf) "RMSDALIGN").
  set (scores := loop m0 m1 a candidates []).
  pose proof (sorted_keys_Permutation lt scores) as Hperm.
  pose proof (sorted_keys_ranked lt lt_asym not_lt_trans scores) as Hranked.
  assert (Hlen : length scores = length candidates) by apply length_scores.
  destruct (sorted_keys lt scores) as [| k keys] eqn:Hkeys.
  { apply Permutation_length in Hperm. rewrite length_seq, Hlen in Hperm.
    destruct candidates; [contradiction | discriminate]. }
  exists k.
  assert (Hk : (k < length candidates)%nat).
  { assert (Hin : k ∈ seq 0 (length scores)).
    { rewrite <- Hperm. apply elem_of_cons. left. reflexivity. }
    apply elem_of_seq in Hin. lia. }
  split; [exact Hk |]. split.
  - rewrite matchAtoms_checked by (auto; lia). cbv zeta. fold candidates. fold a.
    unfold _score_rmsd. cbv zeta. fold scores. rewrite Hkeys. cbn [fst fmap list_fmap].
    destruct candidates; [contradiction | reflexivity].
  - intros j Hj.
    assert (Hin : j ∈ k :: keys).
    { rewrite Hperm. apply elem_of_seq. lia. }
    apply list_elem_of_lookup in Hin as [i Hi].
    destruct i as [| i].
    + cbn in Hi. injection Hi as ->. split; [| lia].
      destruct (lt (scores !!! j) (scores !!! j)) eqn:Hjj; [| reflexivity].
      rewrite (lt_asym _ _ Hjj) in Hjj. discriminate.
    + destruct (Hranked 0%nat (S i) k j) as [Hle Htie]; [lia | reflexivity | exact Hi |].
      split; [exact Hle |]. intros Hkj. apply Htie in Hkj. lia.
Qed.

End Ordered.

End ScoreFacts.

Lemma scores_with_alignment_witness :
  for_mappings Samples.align Samples.coordinates Samples.getRMSD tt tt true
    Samples.candidates [] !! 1%nat
  = Some (score Samples.coordinates Samples.getRMSD
            (moved Samples.align tt tt (take 2 Samples.candidates)) tt [(0, 1)]%nat).
Proof.
  apply (scores_with_alignment Samples.align Samples.coordinates Samples.getRMSD
           tt tt Samples.candidates 1%nat).
  reflexivity.
Defined.

Lemma ordered_candidates_keep_their_order_witness :
  _score_rmsd Samples.align Samples.coordinates Samples.getRMSD Z.ltb tt tt
    MoreSamples.ordered_candidates false
  = (MoreSamples.ordered_candidates,
     angstrom <$> for_mappings Samples.align Samples.coordinates Samples.getRMSD tt tt
                    false MoreSamples.ordered_candidates []).
Proof.
  apply (ordered_candidates_keep_their_order Samples.align Samples.coordinates
           Samples.getRMSD Z.ltb tt tt MoreSamples.ordered_candidates false).
  change (for_mappings Samples.align Samples.coordinates Samples.getRMSD tt tt false
            MoreSamples.ordered_candidates []) with [1; 1; 2].
  intros i j x y Hij Hi Hj.
  destruct i as [| [| [| i]]]; destruct j as [| [| [| j]]];
    cbn in Hi, Hj; try discriminate; try lia;
    injection Hi as <-; injection Hj as <-; reflexivity.
Defined.

Lemma matchAtoms_returns_the_first_matches_witness :
  matchAtoms Samples.align Samples.coordinates Samples.getRMSD Z.ltb Samples.matcher
    tt tt "rmsd" 2 true [] tt true
  = Return (RankedScored
              (take 2 (fst (_score_rmsd Samples.align Samples.coordinates Samples.getRMSD
                              Z.ltb tt tt Samples.candidates false)))
              (take 2 (snd (_score_rmsd Samples.align Samples.coordinates Samples.getRMSD
                              Z.ltb tt tt Samples.candidates false)))).
Proof.
  assert (Hsf : normalised "rmsd" ∈ scoring_functions)
    by (apply (bool_decide_unpack _); vm_compute; exact I).
  assert (Hne : Samples.matcher tt tt [] tt true <> []) by discriminate.
  pose proof (matchAtoms_returns_the_first_matches Samples.align Samples.coordinates
                Samples.getRMSD Z.ltb Samples.matcher tt tt "rmsd" 2 true [] tt true
                Hsf ltac:(lia) ltac:(lia) Hne) as Hm.
  cbv zeta in Hm. destruct Hm as (Hm & _). exact Hm.
Defined.

Lemma matchAtoms_best_has_the_least_score_witness :
  exists k : nat,
    (k < length Samples.candidates)%nat /\
    matchAtoms Samples.align Samples.coordinates Samples.getRMSD Z.ltb Samples.matcher
      tt tt "RMSD" 1 false [] tt true = Return (Best (Samples.candidates !!! k)).
Proof.
  assert (Hsf : normalised "RMSD" ∈ scoring_functions)
    by (apply (bool_decide_unpack _); vm_compute; exact I).
  assert (Hne : Samples.matcher tt tt [] tt true <> []) by discriminate.
  pose proof (matchAtoms_best_has_the_least_score Samples.align Samples.coordinates
                Samples.getRMSD Z.ltb Samples.matcher Zltb_asym Zltb_not_trans
                tt tt "RMSD" false [] tt true Hsf Hne) as Hm.
  cbv zeta in Hm. destruct Hm as (k & Hk & Hbest & _).
  exists k. split; [exact Hk | exact Hbest].
Defined.

End RankingFacts.
